(** * yc_search: the "Who is hiring?" job search, embedded in Rocq

    The program under study is [src/yc_search.py].  It locates the latest
    "Ask HN: Who is hiring?" thread through the Algolia API, fetches the
    thread's replies and turns every reply that passes a term filter and a
    location filter into a job record.

    Layout of this file:
    - [Py]: the part of the Python runtime the program calls (strings,
      JSON values, exceptions, the [re] fragment it uses, [html.unescape]);
    - [Yc]: the functions of [yc_search.py], one definition per function;
    - [Spec]: the vocabulary in which the properties are stated, and
      sample data for the examples;
    - facts about the runtime and the program, then the properties of
      the search. *)

From Stdlib Require Import NArith ZArith Lia Bool Ascii String.
From Stdlib Require Import DecimalString DecimalPos DecimalZ.
From Stdlib Require Import List.
Import ListNotations.

Set Warnings "-register-all".

(* ================================================================== *)
(** * The Python runtime *)
(* ================================================================== *)

Module Py.

(** A Python [str] is a sequence of Unicode code points. *)
Definition str := list N.

(** ASCII literals of the source text. *)
Definition lit (s : string) : str := map N_of_ascii (list_ascii_of_string s).
Arguments lit s%_string.

(** Exceptions that reach the program.  All of them derive from
    [Exception], so an [except Exception] clause catches every one. *)
Inductive exn :=
| AttributeError
| TypeError
| ValueError
| IndexError
| KeyError
| RequestError.

Inductive result (A : Type) :=
| Ok (a : A)
| Raise (e : exn).
Arguments Ok {A} a.
Arguments Raise {A} e.

Definition bind {A B} (m : result A) (f : A -> result B) : result B :=
  match m with
  | Ok a => f a
  | Raise e => Raise e
  end.

(** [try: m  except Exception: h] *)
Definition try_except {A} (m : result A) (h : result A) : result A :=
  match m with
  | Ok a => Ok a
  | Raise _ => h
  end.

(** ** Characters *)

(** [str.isspace] on one code point; it is also what [\s] matches in a
    [str] pattern. *)
Definition is_space (c : N) : bool :=
  ((9 <=? c) && (c <=? 13) || (28 <=? c) && (c <=? 32)
   || (c =? 133) || (c =? 160) || (c =? 5760)
   || (8192 <=? c) && (c <=? 8202)
   || (c =? 8232) || (c =? 8233) || (c =? 8239) || (c =? 8287)
   || (c =? 12288))%N.

(** Line boundaries of [str.splitlines]. *)
Definition is_linebreak (c : N) : bool :=
  ((10 <=? c) && (c <=? 13) || (28 <=? c) && (c <=? 30)
   || (c =? 133) || (c =? 8232) || (c =? 8233))%N.

Definition is_ascii (c : N) : bool := (c <? 128)%N.

Definition ascii_lower (c : N) : N :=
  if ((65 <=? c) && (c <=? 90))%N then (c + 32)%N else c.

Definition is_digit (c : N) : bool := ((48 <=? c) && (c <=? 57))%N.

Definition is_hexdigit (c : N) : bool :=
  (is_digit c || (65 <=? c) && (c <=? 70) || (97 <=? c) && (c <=? 102))%N.

Definition ascii_alnum (c : N) : bool :=
  (is_digit c || (65 <=? c) && (c <=? 90) || (97 <=? c) && (c <=? 122))%N.

(** The Unicode tables and library routines that the interpreter brings
    along and the program does not define.  The functions below that
    depend on case or on the class of a character decide ASCII text by
    themselves and ask the first three fields only beyond ASCII. *)
Class Runtime := {
  (** [str.lower] on a string that is not pure ASCII *)
  unicode_lower : str -> str;
  (** [str.isalnum] on a code point above 127 (for [\w] and [\b]) *)
  unicode_isalnum : N -> bool;
  (** does the text character (above 127) match the pattern character
      under [re.IGNORECASE] *)
  unicode_ignorecase : N -> N -> bool;
  (** [html.entities.html5]: entity name (without the ampersand) to its
      replacement text *)
  html5 : list (str * str);
  (** [int(s)] for a string [s]; [None] stands for [ValueError] *)
  int_of_str : str -> option Z;
  (** [repr(s)] for a string [s] *)
  repr_of_str : str -> str;
  (** [sys.get_int_max_str_digits()]: the most digits that [int] reads
      from a decimal string, 0 for no limit (4300 unless the
      interpreter is told otherwise; interpreters older than the limit
      have none) *)
  int_max_str_digits : nat
}.

Section WithRuntime.
Context {RT : Runtime}.

(** ** Strings *)

(** [s.lower()].  CPython lowers a pure-ASCII string byte by byte and
    consults the Unicode database otherwise. *)
Definition lower (s : str) : str :=
  if forallb is_ascii s then map ascii_lower s else unicode_lower s.

Fixpoint str_eqb (a b : str) : bool :=
  match a, b with
  | [], [] => true
  | x :: a', y :: b' => (x =? y)%N && str_eqb a' b'
  | _, _ => false
  end.

Fixpoint starts_with (p s : str) : bool :=
  match p, s with
  | [], _ => true
  | a :: p', b :: s' => (a =? b)%N && starts_with p' s'
  | _ :: _, [] => false
  end.

(** [p in s] *)
Fixpoint contains (p s : str) : bool :=
  starts_with p s ||
  match s with
  | [] => false
  | _ :: s' => contains p s'
  end.

Fixpoint lstrip (s : str) : str :=
  match s with
  | c :: s' => if is_space c then lstrip s' else s
  | [] => []
  end.

Definition rstrip (s : str) : str := rev (lstrip (rev s)).

(** [s.strip()] *)
Definition strip (s : str) : str := rstrip (lstrip s).

(** [s[a:b]] for [0 <= a <= b] *)
Definition slice (a b : nat) (s : str) : str := firstn (b - a) (skipn a s).

(** Puts [x] in front of the first piece of a list of pieces. *)
Definition cons_hd (x : N) (l : list str) : list str :=
  match l with
  | h :: t => (x :: h) :: t
  | [] => [[x]]
  end.

(** [s.split(sep)] for a non-empty [sep]; [skip] counts the characters of
    a separator that is being stepped over. *)
Fixpoint split_go (sep : str) (skip : nat) (s : str) : list str :=
  match s with
  | [] => [[]]
  | x :: s' =>
      match skip with
      | S k => split_go sep k s'
      | O =>
          if starts_with sep s
          then [] :: split_go sep (length sep - 1) s'
          else cons_hd x (split_go sep 0 s')
      end
  end.

Definition split (sep s : str) : list str := split_go sep 0 s.

(** [s.splitlines()]: a carriage return that is followed by a line feed
    is dropped and the line feed ends the line. *)
Fixpoint splitlines (s : str) : list str :=
  match s with
  | [] => []
  | x :: s' =>
      if ((x =? 13)%N && match s' with y :: _ => (y =? 10)%N | [] => false end)
      then splitlines s'
      else if is_linebreak x then [] :: splitlines s'
      else cons_hd x (splitlines s')
  end.

(** [l[0]] *)
Definition first_item {A} (l : list A) : result A :=
  match l with
  | x :: _ => Ok x
  | [] => Raise IndexError
  end.

Fixpoint join (sep : str) (l : list str) : str :=
  match l with
  | [] => []
  | [x] => x
  | x :: l' => x ++ sep ++ join sep l'
  end.

(** [str(z)] for an integer *)
Definition str_of_Z (z : Z) : str := lit (NilZero.string_of_int (Z.to_int z)).

(** ** JSON values

    What [resp.json()] delivers.  Numbers are the integers, which is what
    the API sends for identifiers; an object keeps its keys in order and
    [dict.get] finds the first entry of a key. *)
Inductive json :=
| JNull
| JBool (b : bool)
| JInt (z : Z)
| JStr (s : str)
| JArr (l : list json)
| JObj (kv : list (str * json)).

(** Truth value of an object, as [not], [or] and [if] take it. *)
Definition truthy (v : json) : bool :=
  match v with
  | JNull => false
  | JBool b => b
  | JInt z => negb (z =? 0)%Z
  | JStr s => match s with [] => false | _ => true end
  | JArr l => match l with [] => false | _ => true end
  | JObj kv => match kv with [] => false | _ => true end
  end.

(** [a or b] *)
Definition py_or (a b : json) : json := if truthy a then a else b.

Fixpoint assoc (k : str) (kv : list (str * json)) : option json :=
  match kv with
  | [] => None
  | (k', v) :: kv' => if str_eqb k k' then Some v else assoc k kv'
  end.

(** [d.get(k, default)]; only a dict has the method. *)
Definition get_default (d : json) (k : str) (default : json) : result json :=
  match d with
  | JObj kv =>
      match assoc k kv with
      | Some v => Ok v
      | None => Ok default
      end
  | _ => Raise AttributeError
  end.

(** [d.get(k)] *)
Definition get (d : json) (k : str) : result json := get_default d k JNull.

(** The items a [for] loop draws from a value. *)
Definition iterate (v : json) : result (list json) :=
  match v with
  | JArr l => Ok l
  | JObj kv => Ok (map (fun p => JStr (fst p)) kv)
  | JStr s => Ok (map (fun c => JStr [c]) s)
  | _ => Raise TypeError
  end.

(** [v[0]]; the keys of a JSON object are strings, so [0] is none of
    them. *)
Definition item0 (v : json) : result json :=
  match v with
  | JArr l => first_item l
  | JStr s => first_item (map (fun c => JStr [c]) s)
  | JObj _ => Raise KeyError
  | _ => Raise TypeError
  end.

(** [int(v)] *)
Definition py_int (v : json) : result Z :=
  match v with
  | JInt z => Ok z
  | JBool b => Ok (if b then 1 else 0)%Z
  | JStr s =>
      match int_of_str s with
      | Some z => Ok z
      | None => Raise ValueError
      end
  | _ => Raise TypeError
  end.

(** [repr(v)] *)
Fixpoint py_repr (v : json) : str :=
  match v with
  | JNull => lit "None"
  | JBool b => if b then lit "True" else lit "False"
  | JInt z => str_of_Z z
  | JStr s => repr_of_str s
  | JArr l => lit "[" ++ join (lit ", ") (map py_repr l) ++ lit "]"
  | JObj kv =>
      lit "{"
      ++ join (lit ", ")
           (map (fun p => repr_of_str (fst p) ++ lit ": " ++ py_repr (snd p)) kv)
      ++ lit "}"
  end.

(** [str(v)], which is also what an f-string field and [str.format]
    insert. *)
Definition py_str (v : json) : str :=
  match v with
  | JStr s => s
  | _ => py_repr v
  end.

(** ** The fragment of [re] the program uses

    A pattern is a sequence of items; a regular expression is a list of
    alternative patterns, tried from the left.  Repetition is greedy and
    backtracks, as in [re]. *)
Inductive atom :=
| Rep (p : N -> bool) (lo : nat) (hi : option nat)
      (** between [lo] and [hi] characters of the class [p] *)
| WordB                      (** [\b] *)
| Bol                        (** [^] *)
| Eol                        (** [$] *)
| Mark.                      (** a parenthesis: records the offset *)

Definition pattern := list atom.
Definition regex := list pattern.

Definition One (p : N -> bool) : atom := Rep p 1 (Some 1).
Definition Opt (p : N -> bool) : atom := Rep p 0 (Some 1).
Definition Plus (p : N -> bool) : atom := Rep p 1 None.
Definition Star (p : N -> bool) : atom := Rep p 0 None.

(** Character classes. *)
Definition chr (c : N) : N -> bool := fun x => (x =? c)%N.
Definition one_of (l : list N) : N -> bool := fun x => existsb (N.eqb x) l.
Definition none_of (l : list N) : N -> bool := fun x => negb (one_of l x).
Definition dot : N -> bool := fun x => negb (x =? 10)%N.

(** A literal character under [re.IGNORECASE]; the pattern characters of
    this program are lower case or have no case. *)
Definition chr_ic (c : N) : N -> bool :=
  fun x => if is_ascii x then (ascii_lower x =? c)%N else unicode_ignorecase x c.

(** [\w] *)
Definition is_word (c : N) : bool :=
  if is_ascii c then ascii_alnum c || (c =? 95)%N else unicode_isalnum c.

Definition is_word_opt (c : option N) : bool :=
  match c with
  | Some x => is_word x
  | None => false
  end.

(** A literal string, and [re.escape] of it. *)
Definition literal (s : str) : pattern := map (fun c => One (chr c)) s.
Definition literal_ic (s : str) : pattern := map (fun c => One (chr_ic c)) s.

(** The outcome of a match: the offset where it stops and the offsets
    recorded by the marks, in pattern order. *)
Definition matched := (nat * list nat)%type.

Definition may_take (hi : option nat) : bool :=
  match hi with
  | Some O => false
  | _ => true
  end.

(** Greedy repetition followed by the continuation [k]. [prev] is the
    character before the current position, [pos] the current offset. *)
Fixpoint rep (p : N -> bool) (k : option N -> str -> nat -> option matched)
    (lo : nat) (hi : option nat) (prev : option N) (s : str) (pos : nat)
    {struct s} : option matched :=
  let stop := match lo with O => k prev s pos | S _ => None end in
  match s with
  | x :: s' =>
      if p x && may_take hi
      then match rep p k (pred lo) (option_map pred hi) (Some x) s' (S pos) with
           | Some m => Some m
           | None => stop
           end
      else stop
  | [] => stop
  end.

Definition at_end (s : str) : bool :=
  match s with
  | [] => true
  | [c] => (c =? 10)%N
  | _ => false
  end.

Fixpoint match_here (r : pattern) (prev : option N) (s : str) (pos : nat)
    {struct r} : option matched :=
  match r with
  | [] => Some (pos, [])
  | Rep p lo hi :: r' => rep p (match_here r') lo hi prev s pos
  | WordB :: r' =>
      if xorb (is_word_opt prev) (is_word_opt (hd_error s))
      then match_here r' prev s pos
      else None
  | Bol :: r' =>
      match prev with
      | None => match_here r' prev s pos
      | Some _ => None
      end
  | Eol :: r' => if at_end s then match_here r' prev s pos else None
  | Mark :: r' =>
      match match_here r' prev s pos with
      | Some (e, ms) => Some (e, pos :: ms)
      | None => None
      end
  end.

(** The first alternative that matches at this position. *)
Fixpoint match_alt (r : regex) (prev : option N) (s : str) (pos : nat)
    : option matched :=
  match r with
  | [] => None
  | p :: r' =>
      match match_here p prev s pos with
      | Some m => Some m
      | None => match_alt r' prev s pos
      end
  end.

(** [re.match(r, s)] *)
Definition re_match (r : regex) (s : str) : option matched :=
  match_alt r None s 0.

(** [re.search(r, s)]: the leftmost position with a match. *)
Fixpoint search_from (r : regex) (prev : option N) (s : str) (pos : nat)
    : option matched :=
  match match_alt r prev s pos with
  | Some m => Some m
  | None =>
      match s with
      | [] => None
      | x :: s' => search_from r (Some x) s' (S pos)
      end
  end.

Definition re_search (r : regex) (s : str) : option matched :=
  search_from r None s 0.

(** Group [n] (counted from 1) of a match on [s]. *)
Definition group (n : nat) (m : matched) (s : str) : str :=
  slice (nth (2 * (n - 1)) (snd m) 0) (nth (2 * (n - 1) + 1) (snd m) 0) s.

(** [re.sub(r, repl, s)] for a regular expression that matches no empty
    string (true of every pattern this program substitutes).  [repl] gets
    the match and the text from the match on; [skip] counts the matched
    characters still to step over. *)
Fixpoint sub_go (r : regex) (repl : matched -> str -> str) (skip : nat)
    (prev : option N) (s : str) : str :=
  match s with
  | [] => []
  | x :: s' =>
      match skip with
      | S k => sub_go r repl k (Some x) s'
      | O =>
          match match_alt r prev s 0 with
          | Some (S n, ms) => repl (S n, ms) s ++ sub_go r repl n (Some x) s'
          | _ => x :: sub_go r repl 0 (Some x) s'
          end
      end
  end.

Definition re_sub (r : regex) (repl : str) (s : str) : str :=
  sub_go r (fun _ _ => repl) 0 None s.

(** [re.sub(r, repl, s)] with a function [repl] that can raise: the
    matches are replaced from the left, and the first exception of
    [repl] is the exception of the substitution. *)
Fixpoint sub_go_try (r : regex) (repl : matched -> str -> result str)
    (skip : nat) (prev : option N) (s : str) : result str :=
  match s with
  | [] => Ok []
  | x :: s' =>
      match skip with
      | S k => sub_go_try r repl k (Some x) s'
      | O =>
          match match_alt r prev s 0 with
          | Some (S n, ms) =>
              bind (repl (S n, ms) s) (fun out =>
              bind (sub_go_try r repl n (Some x) s') (fun rest =>
              Ok (out ++ rest)))
          | _ =>
              bind (sub_go_try r repl 0 (Some x) s') (fun rest =>
              Ok (x :: rest))
          end
      end
  end.

Definition re_sub_fun (r : regex) (repl : matched -> str -> result str)
    (s : str) : result str :=
  sub_go_try r repl 0 None s.

(** [re.split(r, s)], again for a regular expression without empty
    matches and without groups. *)
Fixpoint re_split_go (r : regex) (skip : nat) (prev : option N) (s : str)
    : list str :=
  match s with
  | [] => [[]]
  | x :: s' =>
      match skip with
      | S k => re_split_go r k (Some x) s'
      | O =>
          match match_alt r prev s 0 with
          | Some (S n, _) => [] :: re_split_go r n (Some x) s'
          | _ => cons_hd x (re_split_go r 0 (Some x) s')
          end
      end
  end.

Definition re_split (r : regex) (s : str) : list str :=
  re_split_go r 0 None s.

(** ** [html.unescape] *)

(** [_charref]: an ampersand and, in group 1, a decimal reference, a
    hexadecimal reference or a name of at most 32 characters, each with
    an optional semicolon. *)
Definition _charref : regex :=
  [ [One (chr 38); Mark; One (chr 35); Plus is_digit; Opt (chr 59); Mark];
    [One (chr 38); Mark; One (chr 35); One (one_of [120; 88]%N);
     Plus is_hexdigit; Opt (chr 59); Mark];
    [One (chr 38); Mark;
     Rep (none_of [9; 10; 12; 32; 60; 38; 35; 59]%N) 1 (Some 32);
     Opt (chr 59); Mark] ].

Definition digit_value (c : N) : N :=
  (if is_digit c then c - 48
   else if (97 <=? c) then c - 87
   else c - 55)%N.

(** The number that a string of digits of the base writes. *)
Definition digits_value (base : N) (s : str) : N :=
  fold_left (fun acc c => (acc * base + digit_value c)%N) s 0%N.

(** The string has more digits than [int] converts: more than the limit
    of the interpreter, when there is one, and more than 640, below
    which the limit is not looked at. *)
Definition too_many_digits (s : str) : bool :=
  (0 <? int_max_str_digits) && (int_max_str_digits <? length s)
  && (640 <? length s).

(** [int(s, base)] on a string of digits of that base.  In a base that
    is no power of two, a string of too many digits is a [ValueError];
    in a power of two every length is read. *)
Definition int_base (base : N) (s : str) : result N :=
  if negb (N.land base (base - 1) =? 0)%N && too_many_digits s
  then Raise ValueError
  else Ok (digits_value base s).

(** [s.rstrip(';')] *)
Definition rstrip_semi (s : str) : str :=
  rev ((fix go (l : str) : str :=
          match l with
          | c :: l' => if (c =? 59)%N then go l' else l
          | [] => []
          end) (rev s)).

Definition _invalid_charrefs : list (N * N) :=
  [ (0, 65533); (13, 13); (128, 8364); (129, 129); (130, 8218); (131, 402);
    (132, 8222); (133, 8230); (134, 8224); (135, 8225); (136, 710);
    (137, 8240); (138, 352); (139, 8249); (140, 338); (141, 141);
    (142, 381); (143, 143); (144, 144); (145, 8216); (146, 8217);
    (147, 8220); (148, 8221); (149, 8226); (150, 8211); (151, 8212);
    (152, 732); (153, 8482); (154, 353); (155, 8250); (156, 339);
    (157, 157); (158, 382); (159, 376) ]%N.

Definition _invalid_codepoints (n : N) : bool :=
  ((1 <=? n) && (n <=? 8) || (14 <=? n) && (n <=? 31)
   || (127 <=? n) && (n <=? 159) || (64976 <=? n) && (n <=? 65007)
   || (n =? 11)
   || (n <=? 1114111) && (65534 <=? N.land n 65535))%N.

Fixpoint lookup {A} (eqb : A -> A -> bool) {B} (k : A) (l : list (A * B))
    : option B :=
  match l with
  | [] => None
  | (k', v) :: l' => if eqb k k' then Some v else lookup eqb k l'
  end.

(** The longest proper prefix of [s], of two characters or more, that is
    an entity name: [for x in range(len(s)-1, 1, -1)]. *)
Fixpoint longest_name (s : str) (x : nat) : option str :=
  match x with
  | S (S _ as x') =>
      match lookup str_eqb (firstn x s) html5 with
      | Some v => Some (v ++ skipn x s)
      | None => longest_name s x'
      end
  | _ => None
  end.

(** The replacement of the numeric reference [num]. *)
Definition numeric_charref (num : N) : str :=
  match lookup N.eqb num _invalid_charrefs with
  | Some c => [c]
  | None =>
      if ((55296 <=? num) && (num <=? 57343) || (1114111 <? num))%N
      then [65533%N]
      else if _invalid_codepoints num then []
      else [num]
  end.

(** [_replace_charref], on group 1 of the match.  The conversion of a
    decimal reference is the one place where it can raise. *)
Definition _replace_charref (s : str) : result str :=
  match s with
  | 35 %N :: s1 =>
      bind
        match s1 with
        | c :: s2 =>
            if one_of [120; 88]%N c
            then int_base 16 (rstrip_semi s2)
            else int_base 10 (rstrip_semi s1)
        | [] => Ok 0%N
        end
        (fun num => Ok (numeric_charref num))
  | _ =>
      match lookup str_eqb s html5 with
      | Some v => Ok v
      | None =>
          match longest_name s (length s - 1) with
          | Some v => Ok v
          | None => Ok (38%N :: s)
          end
      end
  end.

Definition unescape (s : str) : result str :=
  if negb (existsb (N.eqb 38) s) then Ok s
  else re_sub_fun _charref (fun m rest => _replace_charref (group 1 m rest)) s.

End WithRuntime.

(** ** Input and output

    The only effect of the program that bears on its result is the
    sequence of HTTP requests.  The network answers the [n]-th request
    of a run with a JSON value or with a failure (transport error, bad
    status, undecodable body); a computation threads the number of
    requests sent so far. *)
Record request := {
  url : str;
  params : option (list (str * json))
}.

Definition network := nat -> request -> result json.

Definition io (A : Type) := nat -> result A * nat.

Definition ret {A} (a : A) : io A := fun n => (Ok a, n).

Definition lift {A} (r : result A) : io A := fun n => (r, n).

Definition bind_io {A B} (m : io A) (f : A -> io B) : io B :=
  fun n =>
    match m n with
    | (Ok a, n') => f a n'
    | (Raise e, n') => (Raise e, n')
    end.

(** [try: m  except Exception: h] *)
Definition try_io {A} (m : io A) (h : io A) : io A :=
  fun n =>
    match m n with
    | (Ok a, n') => (Ok a, n')
    | (Raise _, n') => h n'
    end.

(** ** A runtime for ASCII text

    The least a runtime must be to run the program on ASCII input: no
    case, no letters and no digits beyond ASCII, the entity names of the
    markup characters, decimal numerals with an optional sign, strings
    quoted as they are, and the limit of 4300 digits that the
    interpreter starts with.  The examples below are evaluated with it;
    they use ASCII text only, on which the first three fields are never
    consulted. *)
Definition ascii_int (s : str) : option Z :=
  let digits (d : str) : option N :=
    match d with
    | [] => None
    | _ =>
        if forallb is_digit d && (length d <=? 4300)
        then Some (fold_left (fun acc c => (acc * 10 + (c - 48))%N) d 0%N)
        else None
    end in
  match strip s with
  | 45%N :: d => option_map (fun n => (- Z.of_N n)%Z) (digits d)
  | 43%N :: d => option_map Z.of_N (digits d)
  | d => option_map Z.of_N (digits d)
  end.

Definition ascii_runtime : Runtime := {|
  unicode_lower := fun s => s;
  unicode_isalnum := fun _ => false;
  unicode_ignorecase := fun x c => (x =? c)%N;
  html5 :=
    [ (lit "amp;", lit "&"); (lit "amp", lit "&");
      (lit "lt;", lit "<"); (lit "lt", lit "<");
      (lit "gt;", lit ">"); (lit "gt", lit ">");
      (lit "quot;", [34%N]); (lit "quot", [34%N]);
      (lit "nbsp;", [160%N]); (lit "nbsp", [160%N]) ];
  int_of_str := ascii_int;
  repr_of_str := fun s => lit "'" ++ s ++ lit "'";
  int_max_str_digits := 4300
|}.

End Py.

(* ================================================================== *)
(** * The program: [yc_search.py] *)
(* ================================================================== *)

Module Yc.
Import Py.

Declare Scope py_scope.
Delimit Scope py_scope with py.
Notation "x <- m ;; k" := (bind m (fun x => k))
  (at level 61, m at next level, right associativity) : py_scope.
Notation "x <~ m ;; k" := (bind_io m (fun x => k))
  (at level 61, m at next level, right associativity) : py_scope.
Local Open Scope py_scope.

Section Program.
Context {RT : Runtime}.

Definition ALGOLIA_SEARCH_URL : str := lit "https://hn.algolia.com/api/v1/search".
Definition ALGOLIA_SEARCH_BY_DATE_URL : str :=
  lit "https://hn.algolia.com/api/v1/search_by_date".
(** [ALGOLIA_ITEM_URL.format(x)] and [HN_ITEM_URL.format(x)] *)
Definition ALGOLIA_ITEM_URL (x : json) : str :=
  lit "https://hn.algolia.com/api/v1/items/" ++ py_str x.
Definition HN_ITEM_URL (x : json) : str :=
  lit "https://news.ycombinator.com/item?id=" ++ py_str x.

(** ** [_http_get_json]

    [fuel] runs over [range(retries + 1)]; the pause between attempts
    takes time and changes nothing else.  The [raise] after the loop is
    reached only when the loop makes no attempt, with nothing to raise,
    which is a [TypeError]. *)
Fixpoint http_attempts (net : network) (req : request) (retries : nat)
    (fuel attempt : nat) : io json :=
  fun n =>
    match fuel with
    | O => (Raise TypeError, n)
    | S fuel' =>
        match net n req with
        | Ok v => (Ok v, S n)
        | Raise e =>
            if attempt <? retries
            then http_attempts net req retries fuel' (S attempt) (S n)
            else (Raise e, S n)
        end
    end.

Definition _http_get_json (net : network) (u : str)
    (ps : option (list (str * json))) (retries : nat) : io json :=
  http_attempts net {| url := u; params := ps |} retries (retries + 1) 0.

(** ** [_strip_html] *)

(** [<[^>]+>] *)
Definition tag_re : regex := [[One (chr 60); Plus (none_of [62%N]); One (chr 62)]].

(** [\s+] *)
Definition spaces_re : regex := [[Plus is_space]].

Definition _strip_html (text : str) : result str :=
  let text := re_sub tag_re (lit " ") text in
  text <- unescape text;;
  Ok (strip (re_sub spaces_re (lit " ") text)).

(** ** [_extract_company_and_title] *)

(** The separators [-], [:], en dash and em dash. *)
Definition dashes : list N := [45; 8211; 58; 8211; 8212]%N.

(** First pattern: optional blanks, group 1 of one or more characters
    that are no separator, one separator, optional blanks, group 2 of one
    or more characters up to the end. *)
Definition dash_re : regex :=
  [[Bol; Star is_space; Mark; Plus (none_of dashes); Mark; One (one_of dashes);
    Star is_space; Mark; Plus dot; Mark; Eol]].

(** Second pattern: optional blanks, group 1 of one or more characters
    that are no parenthesis, optional blanks, an opening parenthesis,
    group 2 of one or more characters other than the closing one, the
    closing parenthesis, optional blanks, group 3 with the rest. *)
Definition paren_re : regex :=
  [[Bol; Star is_space; Mark; Plus (none_of [40; 41]%N); Mark; Star is_space;
    One (chr 40); Mark; Plus (none_of [41%N]); Mark; One (chr 41);
    Star is_space; Mark; Star dot; Mark; Eol]].

(** [,|\|] *)
Definition comma_re : regex := [[One (chr 44)]; [One (chr 124)]].

Definition nonempty (s : str) : bool :=
  match s with
  | [] => false
  | _ => true
  end.

Definition _extract_company_and_title (text : str) : result (str * str) :=
  if negb (nonempty text) then Ok ([], [])
  else
    sentence <- first_item (split (lit ". ") text);;
    first <- first_item (splitlines sentence);;
    match re_match dash_re first with
    | Some m =>
        let company := firstn 80 (strip (group 1 m first)) in
        let title := firstn 120 (strip (group 2 m first)) in
        Ok (company, title)
    | None =>
        match re_match paren_re first with
        | Some m2 =>
            let company := firstn 80 (strip (group 1 m2 first)) in
            let rest := strip (group 3 m2 first) in
            Ok (company, firstn 120 (if nonempty rest then rest else first))
        | None =>
            let parts :=
              map strip
                (filter (fun p => nonempty (strip p)) (re_split comma_re first)) in
            match parts with
            | p0 :: p1 :: _ => Ok (firstn 80 p0, firstn 120 p1)
            | _ => Ok ([], firstn 120 first)
            end
        end
    end.

(** ** [_extract_location] *)

Definition cities : list (str * str) :=
  [ (lit "san francisco", lit "San Francisco");
    (lit "sf", lit "San Francisco");
    (lit "new york", lit "New York");
    (lit "nyc", lit "New York");
    (lit "seattle", lit "Seattle");
    (lit "austin", lit "Austin");
    (lit "boston", lit "Boston");
    (lit "london", lit "London");
    (lit "berlin", lit "Berlin");
    (lit "toronto", lit "Toronto") ].

(** [rf"\b{re.escape(key)}\b"] *)
Definition word_re (key : str) : regex := [WordB :: literal key ++ [WordB]].

(** [for key, proper in cities: ...] *)
Fixpoint scan_cities (cs : list (str * str)) (t : str) : str :=
  match cs with
  | [] => []
  | (key, proper) :: cs' =>
      match re_search (word_re key) t with
      | Some _ => proper
      | None => scan_cities cs' t
      end
  end.

Definition _extract_location (text : str) : str :=
  let t := lower text in
  if contains (lit "remote") t then lit "Remote"
  else scan_cities cities t.

(** ** [_matches_terms] and [_matches_location] *)

Definition _matches_terms (text : str) (terms : list str) : bool :=
  match terms with
  | [] => true
  | _ =>
      let t := lower text in
      forallb (fun term => contains (lower term) t) terms
  end.

Definition _matches_location (text : str) (location : option str) : bool :=
  match location with
  | Some ((_ :: _) as location) =>
      let loc := lower (strip location) in
      let t := lower text in
      if str_eqb loc (lit "remote") then contains (lit "remote") t
      else contains loc t
  | _ => true
  end.

(** ** [_latest_who_is_hiring_story_id] *)

Definition by_date_params : list (str * json) :=
  [ (lit "query", JStr (lit "Ask HN: Who is hiring?"));
    (lit "tags", JStr (lit "story,author_whoishiring"));
    (lit "hitsPerPage", JInt 10);
    (lit "restrictSearchableAttributes", JStr (lit "title"));
    (lit "page", JInt 0) ].

Definition search_params : list (str * json) :=
  [ (lit "query", JStr (lit "Ask HN: Who is hiring?"));
    (lit "tags", JStr (lit "story"));
    (lit "hitsPerPage", JInt 20);
    (lit "restrictSearchableAttributes", JStr (lit "title"));
    (lit "page", JInt 0) ].

(** [ask hn:\s*who is hiring\?] with [re.IGNORECASE] *)
Definition pat : regex :=
  [literal_ic (lit "ask hn:") ++ Star is_space :: literal_ic (lit "who is hiring?")].

(** [int(h.get("objectID"))] *)
Definition object_id (h : json) : result Z :=
  o <- get h (lit "objectID");;
  py_int o.

(** The loop over the hits; [Ok None] when it runs to its end. *)
Fixpoint scan_hits (hits : list json) : result (option Z) :=
  match hits with
  | [] => Ok None
  | h :: hits' =>
      t <- get h (lit "title");;
      match py_or t (JStr []) with
      | JStr title =>
          match re_search pat title with
          | Some _ =>
              match object_id h with
              | Ok z => Ok (Some z)
              | Raise _ => scan_hits hits'
              end
          | None => scan_hits hits'
          end
      | _ => Raise TypeError
      end
  end.

Definition _latest_who_is_hiring_story_id (net : network) : io (option Z) :=
  hits <~ try_io
            (data <~ _http_get_json net ALGOLIA_SEARCH_BY_DATE_URL
                       (Some by_date_params) 2;;
             lift (get_default data (lit "hits") (JArr [])))
            (data <~ _http_get_json net ALGOLIA_SEARCH_URL
                       (Some search_params) 2;;
             lift (get_default data (lit "hits") (JArr [])));;
  items <~ lift (iterate hits);;
  found <~ lift (scan_hits items);;
  match found with
  | Some z => ret (Some z)
  | None =>
      if truthy hits
      then lift (try_except
                   (h <- item0 hits;; z <- object_id h;; Ok (Some z))
                   (Ok None))
      else ret None
  end.

(** ** [_fetch_thread_comments] *)

Definition _fetch_thread_comments (net : network) (story_id : Z) : io json :=
  data <~ _http_get_json net (ALGOLIA_ITEM_URL (JInt story_id)) None 2;;
  children <~ lift (get_default data (lit "children") (JArr []));;
  ret (py_or children (JArr [])).

(** ** [yc_search] *)

(** A job dictionary. [company] can hold whatever the comment carries as
    its author. *)
Record job := {
  job_id : str;
  job_source : str;
  job_title : str;
  job_company : json;
  job_location : str;
  job_description : str;
  job_url : str
}.

(** [v != s] for a string [s] *)
Definition differs (v : json) (s : str) : bool :=
  match v with
  | JStr x => negb (str_eqb x s)
  | _ => true
  end.

(** The body of the loop over the comments: [Ok None] where the source
    says [continue], [Ok (Some job)] where it appends [job]. *)
Definition comment_job (terms : list str) (location : option str) (c : json)
    : result (option job) :=
  if negb (truthy c) then Ok None
  else
    type <- get c (lit "type");;
    if differs type (lit "comment") then Ok None
    else
      c_id <- get c (lit "id");;
      t <- get c (lit "text");;
      match py_or t (JStr []) with
      | JStr raw =>
          text <- _strip_html raw;;
          if negb (nonempty text) then Ok None
          else if negb (_matches_terms text terms) then Ok None
          else if negb (_matches_location text location) then Ok None
          else
            ct <- _extract_company_and_title text;;
            let loc := _extract_location text in
            let loc := match location with
                       | Some ((_ :: _) as l) => l
                       | _ => loc
                       end in
            author <- get c (lit "author");;
            Ok (Some {|
              job_id := lit "hn_" ++ py_str c_id;
              job_source := lit "ycombinator";
              job_title := if nonempty (snd ct) then snd ct
                           else lit "Software Engineer";
              job_company := if nonempty (fst ct) then JStr (fst ct)
                             else py_or author (JStr (lit "Unknown"));
              job_location := loc;
              job_description := firstn 800 text;
              job_url := HN_ITEM_URL c_id
            |})
      | _ => Raise TypeError
      end.

(** The loop [for c in comments] with the list [results] built so far. *)
Fixpoint collect (terms : list str) (location : option str) (limit : Z)
    (comments : list json) (results : list job) : result (list job) :=
  match comments with
  | [] => Ok results
  | c :: comments' =>
      j <- comment_job terms location c;;
      match j with
      | None => collect terms location limit comments' results
      | Some job =>
          let results := results ++ [job] in
          if (limit <=? Z.of_nat (length results))%Z then Ok results
          else collect terms location limit comments' results
      end
  end.

(** The second half of [yc_search]: from [results = []] to the
    [return]. *)
Definition yc_search_comments (terms : list str) (location : option str)
    (limit : Z) (comments : list json) : result (list job) :=
  collect terms location limit comments [].

(** The [try] block of [yc_search]: [None] where it returns the empty
    list from within the block. *)
Definition retrieve (net : network) : io (option json) :=
  story_id <~ _latest_who_is_hiring_story_id net;;
  match story_id with
  | None => ret None
  | Some story_id =>
      comments <~ _fetch_thread_comments net story_id;;
      ret (Some comments)
  end.

(** [verbose] only adds diagnostics on the error stream. *)
Definition yc_search (net : network) (terms : list str)
    (location : option str) (limit : Z) (verbose : bool) : io (list job) :=
  found <~ try_io (retrieve net) (ret None);;
  match found with
  | None => ret []
  | Some comments =>
      lift (cs <- iterate comments;;
            yc_search_comments terms location limit cs)
  end.

End Program.
End Yc.

(* ================================================================== *)
(** * Vocabulary of the properties *)
(* ================================================================== *)

Module Spec.
Import Py Yc.
Local Open Scope py_scope.

Section Vocabulary.
Context {RT : Runtime}.

(** The last character of [pre], or [prev] when [pre] is empty. *)
Fixpoint last_or (prev : option N) (pre : str) : option N :=
  match pre with
  | [] => prev
  | x :: pre' => last_or (Some x) pre'
  end.

(** [key] occurs in [t] as a whole word: neither the character before
    the occurrence nor the one after it is a word character. *)
Definition whole_word (key t : str) : Prop :=
  exists pre post,
    t = pre ++ key ++ post
    /\ is_word_opt (last_or None pre) = false
    /\ is_word_opt (hd_error post) = false.

(** The key starts and ends with a word character. *)
Definition proper_key (key : str) : bool :=
  is_word_opt (hd_error key) && is_word_opt (last_or None key).

(** The key stands at the front of [s] as a whole word, [prev] being the
    character before [s]. *)
Definition word_at (key : str) (prev : option N) (s : str) : bool :=
  negb (is_word_opt prev) && starts_with key s
  && negb (is_word_opt (hd_error (skipn (length key) s))).

(** [t] contains [needle] without regard to case. *)
Definition contains_nocase (needle t : str) : bool :=
  contains (lower needle) (lower t).

(** Whitespace collapsed by a direct scan; [inside] says that the
    previous character was a blank. *)
Fixpoint collapse (inside : bool) (s : str) : str :=
  match s with
  | [] => []
  | x :: s' =>
      if is_space x
      then if inside then collapse true s' else 32%N :: collapse true s'
      else x :: collapse false s'
  end.

(** Number of blanks at the front of [s]. *)
Fixpoint blanks (s : str) : nat :=
  match s with
  | x :: s' => if is_space x then S (blanks s') else O
  | [] => O
  end.

(** [s] is empty or starts with a character that is no blank. *)
Definition starts_clean (s : str) : bool :=
  match s with
  | y :: _ => negb (is_space y)
  | [] => true
  end.

(** Every blank of [s] is a space that no blank follows. *)
Fixpoint single_spaced (s : str) : bool :=
  match s with
  | [] => true
  | x :: s' =>
      (if is_space x
       then (x =? 32)%N && match s' with
                           | y :: _ => negb (is_space y)
                           | [] => true
                           end
       else true)
      && single_spaced s'
  end.

(** The identifiers that the nodes of a thread carry, in order; a node
    that is no dictionary carries none. *)
Definition identifiers (comments : list json) : list json :=
  flat_map (fun c => match get c (lit "id") with
                     | Ok v => [v]
                     | Raise _ => []
                     end) comments.

(** The comment passes the type test, the test for a non-empty text, the
    term filter and the location filter of [yc_search]. *)
Definition passes (terms : list str) (location : option str) (c : json)
    : bool :=
  truthy c &&
  match get c (lit "type"), get c (lit "text") with
  | Ok type, Ok t =>
      negb (differs type (lit "comment")) &&
      match py_or t (JStr []) with
      | JStr raw =>
          match _strip_html raw with
          | Ok text =>
              nonempty text && _matches_terms text terms
              && _matches_location text location
          | Raise _ => false
          end
      | _ => false
      end
  | _, _ => false
  end.

(** The comment is one that [yc_search] passes over: an empty or null
    node, a dictionary whose type is not "comment", or one whose text is
    missing, empty, or empty once normalized.  A text whose
    normalization raises has no normal form: its comment is not passed
    over, [yc_search] stops at it. *)
Definition passed_over (c : json) : bool :=
  negb (truthy c) ||
  match get c (lit "type"), get c (lit "text") with
  | Ok type, Ok t =>
      differs type (lit "comment") ||
      match py_or t (JStr []) with
      | JStr raw =>
          match _strip_html raw with
          | Ok text => negb (nonempty text)
          | Raise _ => false
          end
      | _ => false
      end
  | _, _ => false
  end.

(** The record that the loop body builds for a comment with identifier
    [c_id], normalized text [text], extracted pair [ct] and author
    [author]. *)
Definition job_of (location : option str) (c_id : json) (text : str)
    (ct : str * str) (author : json) : job :=
  {| job_id := lit "hn_" ++ py_str c_id;
     job_source := lit "ycombinator";
     job_title := if nonempty (snd ct) then snd ct else lit "Software Engineer";
     job_company := if nonempty (fst ct) then JStr (fst ct)
                    else py_or author (JStr (lit "Unknown"));
     job_location := match location with
                     | Some ((_ :: _) as l) => l
                     | _ => _extract_location text
                     end;
     job_description := firstn 800 text;
     job_url := HN_ITEM_URL c_id |}.

(** The posting [j] with [l] as its location. *)
Definition relocated (l : str) (j : job) : job :=
  {| job_id := job_id j;
     job_source := job_source j;
     job_title := job_title j;
     job_company := job_company j;
     job_location := l;
     job_description := job_description j;
     job_url := job_url j |}.

(** [yc_search] with the term filter taken out: the loop body, the loop
    and the function, as in [Yc] but for the test of the terms. *)
Definition comment_job_unfiltered (location : option str) (c : json)
    : result (option job) :=
  if negb (truthy c) then Ok None
  else
    type <- get c (lit "type");;
    if differs type (lit "comment") then Ok None
    else
      c_id <- get c (lit "id");;
      t <- get c (lit "text");;
      match py_or t (JStr []) with
      | JStr raw =>
          text <- _strip_html raw;;
          if negb (nonempty text) then Ok None
          else if negb (_matches_location text location) then Ok None
          else
            ct <- _extract_company_and_title text;;
            let loc := _extract_location text in
            let loc := match location with
                       | Some ((_ :: _) as l) => l
                       | _ => loc
                       end in
            author <- get c (lit "author");;
            Ok (Some {|
              job_id := lit "hn_" ++ py_str c_id;
              job_source := lit "ycombinator";
              job_title := if nonempty (snd ct) then snd ct
                           else lit "Software Engineer";
              job_company := if nonempty (fst ct) then JStr (fst ct)
                             else py_or author (JStr (lit "Unknown"));
              job_location := loc;
              job_description := firstn 800 text;
              job_url := HN_ITEM_URL c_id
            |})
      | _ => Raise TypeError
      end.

Fixpoint collect_unfiltered (location : option str) (limit : Z)
    (comments : list json) (results : list job) : result (list job) :=
  match comments with
  | [] => Ok results
  | c :: comments' =>
      j <- comment_job_unfiltered location c;;
      match j with
      | None => collect_unfiltered location limit comments' results
      | Some job =>
          let results := results ++ [job] in
          if (limit <=? Z.of_nat (length results))%Z then Ok results
          else collect_unfiltered location limit comments' results
      end
  end.

Definition yc_search_comments_unfiltered (location : option str) (limit : Z)
    (comments : list json) : result (list job) :=
  collect_unfiltered location limit comments [].

(** The two searches of the thread locator, each with the hits it
    extracts: the branches of its [try] statement. *)
Definition dated_hits (net : network) : io json :=
  data <~ _http_get_json net ALGOLIA_SEARCH_BY_DATE_URL (Some by_date_params) 2;;
  lift (get_default data (lit "hits") (JArr [])).

Definition fallback_hits (net : network) : io json :=
  data <~ _http_get_json net ALGOLIA_SEARCH_URL (Some search_params) 2;;
  lift (get_default data (lit "hits") (JArr [])).

(** All the postings that the comments yield, in the order of the
    comments; a comment that is skipped or that raises yields none. *)
Definition jobs_of (terms : list str) (location : option str)
    (comments : list json) : list job :=
  flat_map (fun c => match comment_job terms location c with
                     | Ok (Some j) => [j]
                     | _ => []
                     end) comments.

(** The answers of location extraction. *)
Definition location_labels : list str :=
  [ lit "Remote"; lit "San Francisco"; lit "New York"; lit "Seattle";
    lit "Austin"; lit "Boston"; lit "London"; lit "Berlin"; lit "Toronto";
    [] ].

(** The title that the locator reads off a hit: the hit is a dictionary
    and its title is a string, or is empty or missing and read as the
    empty string. *)
Definition hit_title (h : json) : option str :=
  match get h (lit "title") with
  | Ok t =>
      match py_or t (JStr []) with
      | JStr title => Some title
      | _ => None
      end
  | Raise _ => None
  end.

(** The title of the hit matches the pattern of the locator. *)
Definition hit_matches (h : json) : bool :=
  match hit_title h with
  | Some title =>
      match re_search pat title with
      | Some _ => true
      | None => false
      end
  | None => false
  end.

(** The hit has a title to read and is not the one to return: its title
    does not match, or its identifier does not convert to an integer. *)
Definition hit_passed_over (h : json) : bool :=
  match hit_title h with
  | Some _ =>
      negb (hit_matches h)
      || match object_id h with
         | Ok _ => false
         | Raise _ => true
         end
  | None => false
  end.

(** The exceptions that the loop over the comments can raise. *)
Definition loop_exn (e : exn) : Prop :=
  e = AttributeError \/ e = TypeError \/ e = IndexError \/ e = ValueError.

(** The request that [_http_get_json] sends. *)
Definition request_of (u : str) (ps : option (list (str * json))) : request :=
  {| url := u; params := ps |}.

End Vocabulary.

(** ** Sample data for the examples *)

(** A comment node with the four fields the program reads. *)
Definition comment (id : Z) (text author : string) : json :=
  JObj [ (lit "type", JStr (lit "comment"));
         (lit "id", JInt id);
         (lit "text", JStr (lit text));
         (lit "author", JStr (lit author)) ].

(** A comment node without an identifier. *)
Definition anonymous_comment (text : string) : json :=
  JObj [ (lit "type", JStr (lit "comment"));
         (lit "text", JStr (lit text)) ].

(** A text of more than 800 characters whose only mention of the place
    comes last. *)
Definition long_text : str :=
  lit "Acme - Engineer " ++ repeat 120%N 800 ++ lit " remote".

Definition long_comment : json :=
  JObj [ (lit "type", JStr (lit "comment"));
         (lit "id", JInt 1);
         (lit "text", JStr long_text) ].

(** A decimal character reference of [digits] digits, all zeros but the
    last. *)
Definition padded_reference (digits : nat) : str :=
  lit "&#" ++ repeat 48%N (digits - 1) ++ lit "1;".

Definition padded_comment (id : Z) (digits : nat) : json :=
  JObj [ (lit "type", JStr (lit "comment"));
         (lit "id", JInt id);
         (lit "text", JStr (padded_reference digits));
         (lit "author", JStr (lit "ann")) ].

(** A network whose searches find nothing. *)
Definition silent_net : network :=
  fun _ _ => Ok (JObj [(lit "hits", JArr [])]).

(** A network whose dated search is down and whose other search finds
    nothing. *)
Definition dated_down_net : network :=
  fun _ req =>
    if str_eqb (url req) ALGOLIA_SEARCH_BY_DATE_URL
    then Raise RequestError
    else Ok (JObj [(lit "hits", JArr [])]).

(** A network with one thread and the given replies. *)
Definition one_thread_net (replies : list json) : network :=
  fun _ req =>
    if str_eqb (url req) ALGOLIA_SEARCH_BY_DATE_URL
    then Ok (JObj [(lit "hits",
                    JArr [JObj [(lit "title", JStr (lit "Ask HN: Who is hiring? (May 2025)"));
                                (lit "objectID", JStr (lit "1001"))]])])
    else Ok (JObj [(lit "children", JArr replies)]).

(** A network whose first answer is a failure and whose later answers
    find nothing. *)
Definition first_down_net : network :=
  fun k _ =>
    match k with
    | O => Raise RequestError
    | S _ => Ok (JObj [(lit "hits", JArr [])])
    end.

(** A network that answers the dated search with [found] and every
    other request with [item]. *)
Definition answering_net (found item : json) : network :=
  fun _ req =>
    if str_eqb (url req) ALGOLIA_SEARCH_BY_DATE_URL then Ok found else Ok item.

(** A hit of a search. *)
Definition hit (title objectID : string) : json :=
  JObj [ (lit "title", JStr (lit title)); (lit "objectID", JStr (lit objectID)) ].

End Spec.

(* ================================================================== *)
(** * Facts about the runtime *)
(* ================================================================== *)

Import Py Yc Spec.
Local Open Scope py_scope.

Section RuntimeFacts.
Context {RT : Runtime}.

Lemma str_eqb_eq (a b : str) : str_eqb a b = true <-> a = b.
Proof.
  revert b; induction a as [|x a IH]; intros [|y b]; simpl; split; try easy.
  - rewrite andb_true_iff, N.eqb_eq, IH. now intros [-> ->].
  - intros [= -> ->]. rewrite N.eqb_refl. now apply IH.
Qed.

Lemma str_eqb_refl (a : str) : str_eqb a a = true.
Proof. now apply str_eqb_eq. Qed.

Lemma starts_with_spec (p s : str) :
  starts_with p s = true <-> exists post, s = p ++ post.
Proof.
  revert s; induction p as [|a p IH]; intros s; simpl.
  - split; [now exists s | easy].
  - destruct s as [|b s].
    + split; [easy | now intros [post H]].
    + rewrite andb_true_iff, N.eqb_eq, IH. split.
      * intros [-> [post ->]]. now exists post.
      * intros [post [= -> ->]]. split; [easy | now exists post].
Qed.

Lemma contains_spec (p s : str) :
  contains p s = true <-> exists pre post, s = pre ++ p ++ post.
Proof.
  induction s as [|x s IH].
  - simpl. rewrite orb_false_r, starts_with_spec. split.
    + intros [post H]. now exists [], post.
    + intros [pre [post H]]. destruct pre; [exists post; exact H | easy].
  - cbn [contains]. rewrite orb_true_iff, starts_with_spec, IH. split.
    + intros [[post H] | [pre [post H]]].
      * now exists [], post.
      * exists (x :: pre), post. now rewrite H.
    + intros [[|y pre] [post H]].
      * left. exists post. exact H.
      * right. injection H as -> ->. now exists pre, post.
Qed.

Lemma contains_nil (s : str) : contains [] s = true.
Proof. now destruct s. Qed.

Lemma lstrip_blank (s : str) : forallb is_space s = true -> lstrip s = [].
Proof.
  induction s as [|x s IH]; simpl; [easy|].
  rewrite andb_true_iff. intros [-> H]. now apply IH.
Qed.

Lemma strip_blank (s : str) : forallb is_space s = true -> strip s = [].
Proof. intros H. unfold strip. now rewrite (lstrip_blank _ H). Qed.

Lemma lower_nil : lower [] = [].
Proof. reflexivity. Qed.

End RuntimeFacts.

(* ================================================================== *)
(** * Facts about the program *)
(* ================================================================== *)

Section ProgramFacts.
Context {RT : Runtime}.

Lemma strip_html_nil : _strip_html [] = Ok [].
Proof. reflexivity. Qed.

Lemma comment_job_inv terms location c j :
  comment_job terms location c = Ok (Some j) ->
  exists c_id raw text ct author,
    truthy c = true
    /\ get c (lit "type") = Ok (JStr (lit "comment"))
    /\ get c (lit "id") = Ok c_id
    /\ get c (lit "text") = Ok (JStr raw)
    /\ get c (lit "author") = Ok author
    /\ _strip_html raw = Ok text
    /\ nonempty text = true
    /\ _matches_terms text terms = true
    /\ _matches_location text location = true
    /\ _extract_company_and_title text = Ok ct
    /\ j = job_of location c_id text ct author.
Proof.
  unfold comment_job. intros H.
  destruct (truthy c) eqn:Ec; cbn [negb] in H; [|discriminate].
  destruct (get c (lit "type")) as [ty|] eqn:Ety; cbn [bind] in H; [|discriminate].
  destruct (differs ty (lit "comment")) eqn:Ed; [discriminate|].
  destruct (get c (lit "id")) as [c_id|] eqn:Eid; cbn [bind] in H; [|discriminate].
  destruct (get c (lit "text")) as [t|] eqn:Et; cbn [bind] in H; [|discriminate].
  assert (Hty : ty = JStr (lit "comment")).
  { destruct ty; try discriminate. unfold differs in Ed.
    apply negb_false_iff, str_eqb_eq in Ed. now subst. }
  subst ty.
  destruct (py_or t (JStr [])) as [| | |raw| |] eqn:Eor; try discriminate.
  destruct (_strip_html raw) as [text|] eqn:Es; cbn [bind] in H; [|discriminate].
  destruct (nonempty text) eqn:En; cbn [negb] in H; [|discriminate].
  destruct (_matches_terms text terms) eqn:Em; cbn [negb] in H; [|discriminate].
  destruct (_matches_location text location) eqn:El; cbn [negb] in H; [|discriminate].
  destruct (_extract_company_and_title text) as [ct|] eqn:Ect; cbn [bind] in H; [|discriminate].
  destruct (get c (lit "author")) as [author|] eqn:Ea; cbn [bind] in H; [|discriminate].
  injection H as <-.
  assert (t = JStr raw).
  { unfold py_or in Eor. destruct (truthy t); [easy|].
    injection Eor as <-. rewrite strip_html_nil in Es.
    injection Es as <-. discriminate. }
  subst t. exists c_id, raw, text, ct, author. repeat split; auto.
Qed.

End ProgramFacts.

Section Loop.
Context {RT : Runtime}.
Variables (terms : list str) (location : option str) (limit : Z).

Lemma collect_skip c cs acc :
  comment_job terms location c = Ok None ->
  collect terms location limit (c :: cs) acc = collect terms location limit cs acc.
Proof. intros H. cbn [collect]. now rewrite H. Qed.

Lemma collect_emit c cs acc j :
  comment_job terms location c = Ok (Some j) ->
  collect terms location limit (c :: cs) acc =
    if (limit <=? Z.of_nat (length (acc ++ [j])))%Z then Ok (acc ++ [j])
    else collect terms location limit cs (acc ++ [j]).
Proof. intros H. cbn [collect]. now rewrite H. Qed.

Lemma collect_raise c cs acc e :
  comment_job terms location c = Raise e ->
  collect terms location limit (c :: cs) acc = Raise e.
Proof. intros H. cbn [collect]. now rewrite H. Qed.

(** The three ways one turn of the loop can go. *)
Lemma collect_cases c cs acc rs :
  collect terms location limit (c :: cs) acc = Ok rs ->
  (comment_job terms location c = Ok None
   /\ collect terms location limit cs acc = Ok rs)
  \/ (exists j, comment_job terms location c = Ok (Some j)
        /\ (limit <=? Z.of_nat (length (acc ++ [j])))%Z = true
        /\ rs = acc ++ [j])
  \/ (exists j, comment_job terms location c = Ok (Some j)
        /\ (limit <=? Z.of_nat (length (acc ++ [j])))%Z = false
        /\ collect terms location limit cs (acc ++ [j]) = Ok rs).
Proof.
  destruct (comment_job terms location c) as [[j|]|e] eqn:E.
  - rewrite (collect_emit _ cs acc _ E).
    destruct (limit <=? _)%Z eqn:L; intros H.
    + right; left. exists j. injection H as <-. auto.
    + right; right. exists j. auto.
  - rewrite (collect_skip _ cs acc E). auto.
  - now rewrite (collect_raise _ cs acc _ E).
Qed.

Lemma collect_bound cs : forall acc rs,
  (Z.of_nat (length acc) < limit)%Z ->
  collect terms location limit cs acc = Ok rs ->
  (Z.of_nat (length rs) <= limit)%Z.
Proof.
  induction cs as [|c cs IH]; intros acc rs Hacc H.
  - injection H as <-. lia.
  - apply collect_cases in H.
    destruct H as [[_ H] | [(j & _ & L & ->) | (j & _ & L & H)]].
    + eauto.
    + rewrite length_app in *. cbn [length] in *. lia.
    + apply (IH _ _ (proj1 (Z.leb_gt _ _) L) H).
Qed.

(** A property of every job the loop body builds holds of every job
    the loop returns. *)
Lemma collect_Forall (P : job -> Prop) cs : forall acc rs,
  (forall c j, In c cs -> comment_job terms location c = Ok (Some j) -> P j) ->
  Forall P acc ->
  collect terms location limit cs acc = Ok rs ->
  Forall P rs.
Proof.
  induction cs as [|c cs IH]; intros acc rs Hb Hacc H.
  - now injection H as <-.
  - assert (Hcs : forall c' j, In c' cs ->
              comment_job terms location c' = Ok (Some j) -> P j)
      by (intros; eapply Hb; [right|]; eauto).
    assert (Hj : forall j, comment_job terms location c = Ok (Some j) ->
              Forall P (acc ++ [j])).
    { intros j E. apply Forall_app. split; [easy|].
      constructor; [|constructor]. apply (Hb c); [now left | easy]. }
    apply collect_cases in H.
    destruct H as [[_ H] | [(j & E & _ & ->) | (j & E & _ & H)]]; eauto.
Qed.

End Loop.

(* ================================================================== *)
(** * Properties of the search *)
(* ================================================================== *)

(** C5: with a positive limit, a search never returns more than [limit]
    postings, whatever the comments, the terms and the location. *)
Theorem yc_search_at_most_limit `{RT : Runtime} (terms : list str)
    (location : option str) (limit : Z) (comments : list json)
    (rs : list job) :
  (0 < limit)%Z ->
  yc_search_comments terms location limit comments = Ok rs ->
  (Z.of_nat (length rs) <= limit)%Z.
Proof.
  intros Hl H. apply (collect_bound terms location limit comments [] rs Hl H).
Qed.

Section LimitExample.
Local Existing Instance ascii_runtime.

Lemma yc_search_at_most_limit_witness :
  exists rs,
    yc_search_comments [] None 2
      [ comment 1 "Acme - Engineer" "ann";
        comment 2 "Globex (Remote) Backend roles open" "bob";
        comment 3 "Initech, QA | Austin" "cyd" ] = Ok rs
    /\ (Z.of_nat (length rs) <= 2)%Z.
Proof.
  eexists. split.
  - vm_compute. reflexivity.
  - apply (yc_search_at_most_limit [] None 2
             [ comment 1 "Acme - Engineer" "ann";
               comment 2 "Globex (Remote) Backend roles open" "bob";
               comment 3 "Initech, QA | Austin" "cyd" ]).
    + reflexivity.
    + vm_compute. reflexivity.
Defined.

End LimitExample.

Lemma collect_unfiltered_eq `{RT : Runtime} (location : option str)
    (limit : Z) (comments : list json) : forall acc,
  collect [] location limit comments acc =
  collect_unfiltered location limit comments acc.
Proof.
  induction comments as [|c cs IH]; intros acc; [reflexivity|].
  cbn [collect collect_unfiltered].
  change (comment_job [] location c) with (comment_job_unfiltered location c).
  destruct (comment_job_unfiltered location c) as [[j|]|e]; cbn [bind]; auto.
  now rewrite IH.
Qed.

(** C8: an empty term list excludes nothing.  The term test holds of
    every text, and the search with no terms is the search without the
    term filter. *)
Theorem empty_terms_exclude_nothing `{RT : Runtime} (location : option str)
    (limit : Z) (comments : list json) :
  (forall text, _matches_terms text [] = true)
  /\ yc_search_comments [] location limit comments =
     yc_search_comments_unfiltered location limit comments.
Proof.
  split; [reflexivity|]. apply collect_unfiltered_eq.
Qed.

Lemma matches_blank_location `{RT : Runtime} (ws text : str) :
  forallb is_space ws = true -> _matches_location text (Some ws) = true.
Proof.
  intros H. destruct ws as [|x ws]; [reflexivity|].
  cbn [_matches_location]. rewrite (strip_blank _ H).
  cbn. apply contains_nil.
Qed.

Lemma job_location_supplied `{RT : Runtime} terms (l : str) c j :
  l <> [] ->
  comment_job terms (Some l) c = Ok (Some j) -> job_location j = l.
Proof.
  intros Hl H.
  destruct (comment_job_inv _ _ _ _ H) as (c_id & raw & text & ct & a & Hj).
  destruct Hj as (_ & _ & _ & _ & _ & _ & _ & _ & _ & _ & ->).
  now destruct l.
Qed.

Lemma comment_job_blank `{RT : Runtime} terms (ws : str) c :
  ws <> [] -> forallb is_space ws = true ->
  comment_job terms (Some ws) c =
  (o <- comment_job terms None c;; Ok (option_map (relocated ws) o)).
Proof.
  intros Hne Hws. unfold comment_job.
  destruct (negb (truthy c)); [reflexivity|].
  destruct (get c (lit "type")) as [ty|e]; cbn [bind]; [|reflexivity].
  destruct (differs ty (lit "comment")); [reflexivity|].
  destruct (get c (lit "id")) as [c_id|e]; cbn [bind]; [|reflexivity].
  destruct (get c (lit "text")) as [t|e]; cbn [bind]; [|reflexivity].
  destruct (py_or t (JStr [])) as [| | |raw| |]; try reflexivity.
  destruct (_strip_html raw) as [text|e]; cbn [bind]; [|reflexivity].
  destruct (negb (nonempty text)); [reflexivity|].
  destruct (negb (_matches_terms text terms)); [reflexivity|].
  rewrite (matches_blank_location ws text Hws).
  change (_matches_location text None) with true. cbn [negb].
  destruct (_extract_company_and_title text) as [ct|e]; cbn [bind];
    [|reflexivity].
  destruct (get c (lit "author")) as [author|e]; cbn [bind]; [|reflexivity].
  destruct ws as [|x ws']; [now destruct Hne|]. reflexivity.
Qed.

Lemma collect_blank `{RT : Runtime} terms (ws : str) limit cs :
  ws <> [] -> forallb is_space ws = true ->
  forall acc,
    collect terms (Some ws) limit cs (map (relocated ws) acc) =
    (rs <- collect terms None limit cs acc;; Ok (map (relocated ws) rs)).
Proof.
  intros Hne Hws. induction cs as [|c cs IH]; intros acc; [reflexivity|].
  cbn [collect]. rewrite (comment_job_blank terms ws c Hne Hws).
  destruct (comment_job terms None c) as [[j|]|e]; cbn [bind option_map];
    [|apply IH|reflexivity].
  replace (map (relocated ws) acc ++ [relocated ws j])
    with (map (relocated ws) (acc ++ [j])) by (now rewrite map_app).
  rewrite length_map.
  destruct (limit <=? Z.of_nat (length (acc ++ [j])))%Z; [reflexivity|].
  apply IH.
Qed.

(** C10: a location made of blanks only lets every text through the
    location filter and counts as supplied: the search with it keeps the
    comments that the search without a location keeps, raises where that
    one raises, and returns the same postings with the blanks, as they
    are, in the place of the extracted location.  So every posting
    returned carries the blanks as its location. *)
Theorem blank_location_matches_all `{RT : Runtime} (ws : str) :
  ws <> [] ->
  forallb is_space ws = true ->
  (forall text, _matches_location text (Some ws) = true)
  /\ (forall terms limit comments,
        yc_search_comments terms (Some ws) limit comments =
        (rs <- yc_search_comments terms None limit comments;;
         Ok (map (relocated ws) rs)))
  /\ (forall net terms limit verbose n,
        yc_search net terms (Some ws) limit verbose n =
        (rs <- fst (yc_search net terms None limit verbose n);;
         Ok (map (relocated ws) rs),
         snd (yc_search net terms None limit verbose n)))
  /\ (forall terms limit comments rs,
        yc_search_comments terms (Some ws) limit comments = Ok rs ->
        Forall (fun j => job_location j = ws) rs).
Proof.
  intros Hne Hws. split; [|split; [|split]].
  - intros text. now apply matches_blank_location.
  - intros terms limit comments.
    apply (collect_blank terms ws limit comments Hne Hws []).
  - intros net terms limit verbose n. unfold yc_search, bind_io.
    destruct (try_io (retrieve net) (ret None) n) as [[[comments|]|e] n1];
      try reflexivity.
    unfold lift. cbn [fst snd]. f_equal.
    destruct (iterate comments) as [cs|e]; cbn [bind]; [|reflexivity].
    apply (collect_blank terms ws limit cs Hne Hws []).
  - intros terms limit comments rs H.
    apply (collect_Forall terms (Some ws) limit _ comments [] rs); auto.
    intros c j _ Hj. now apply (job_location_supplied terms ws c j).
Qed.

Section BlankLocationExample.
Local Existing Instance ascii_runtime.

Lemma blank_location_matches_all_witness :
  _matches_location (lit "Globex (Remote) Rust roles open")
    (Some (lit "  ")) = true
  /\ exists j,
       yc_search_comments [lit "rust"] (Some (lit "  ")) 50
         [ comment 1 "Acme - Go engineer, Berlin" "ann";
           comment 2 "Globex (Remote) Rust roles open" "bob" ] = Ok [j]
       /\ job_id j = lit "hn_2"
       /\ job_location j = lit "  ".
Proof.
  assert (Hne : lit "  " <> []) by discriminate.
  assert (Hws : forallb is_space (lit "  ") = true) by reflexivity.
  destruct (blank_location_matches_all (lit "  ") Hne Hws)
    as (Hall & Hrun & _ & _).
  split; [apply Hall|].
  eexists. split; [|split].
  - rewrite Hrun. vm_compute. reflexivity.
  - reflexivity.
  - reflexivity.
Defined.

End BlankLocationExample.

Section LongTextExample.
Local Existing Instance ascii_runtime.

(** C1, counterexample: the place is named after the 800th character of
    the text, so the comment passes the filter and its description, cut
    at 800 characters, does not name the place. *)
Lemma description_may_miss_location :
  exists j,
    yc_search_comments [] (Some (lit "Remote")) 50
      [long_comment] = Ok [j]
    /\ job_location j = lit "Remote"
    /\ contains (lit "remote") (lower (job_description j))
       = false.
Proof.
  eexists. split; [vm_compute; reflexivity|]. split; vm_compute; reflexivity.
Qed.

End LongTextExample.

(** C1, as the code has it: with a location supplied, every posting
    carries exactly that location; the posting comes from a comment
    whose normalized text contains the location, stripped of blanks at
    both ends, without regard to case (the literal "remote" when that is
    what the stripped location is in lower case); the description is the
    first 800 characters of that text, and so contains the location too
    when the text is no longer than that. *)
Theorem location_override_and_match `{RT : Runtime} (terms : list str)
    (l : str) (limit : Z) (comments : list json) (rs : list job) :
  l <> [] ->
  yc_search_comments terms (Some l) limit comments = Ok rs ->
  Forall (fun j =>
    job_location j = l
    /\ exists c raw text,
         In c comments
         /\ get c (lit "text") = Ok (JStr raw)
         /\ _strip_html raw = Ok text
         /\ job_description j = firstn 800 text
         /\ contains_nocase (strip l) text = true
         /\ (lower (strip l) = lit "remote" ->
             contains (lit "remote") (lower text) = true)
         /\ (length text <= 800 ->
             contains_nocase (strip l) (job_description j) = true)) rs.
Proof.
  intros Hl H.
  apply (collect_Forall terms (Some l) limit _ comments [] rs); auto.
  intros c j Hin Hj. split; [now apply (job_location_supplied terms l c j)|].
  destruct (comment_job_inv _ _ _ _ Hj) as (c_id & raw & text & ct & a & Hinv).
  destruct Hinv as (_ & _ & _ & Ht & _ & Hs & _ & _ & Hm & _ & ->).
  exists c, raw, text. split; [easy|]. split; [easy|]. split; [easy|].
  split; [reflexivity|].
  assert (Hc : contains_nocase (strip l) text = true).
  { unfold contains_nocase. destruct l as [|x l]; [easy|].
    cbn [_matches_location] in Hm.
    destruct (str_eqb (lower (strip (x :: l))) (lit "remote")) eqn:E; [|easy].
    apply str_eqb_eq in E. now rewrite E. }
  split; [easy|]. split.
  - intros E. unfold contains_nocase in Hc. now rewrite E in Hc.
  - intros Hlen. cbn [job_of job_description]. now rewrite firstn_all2.
Qed.

Section LocationExample.
Local Existing Instance ascii_runtime.

Lemma location_override_and_match_witness :
  exists rs,
    yc_search_comments [lit "backend"]
      (Some (lit " remote ")) 50
      [ comment 1 "Acme - Engineer, Berlin" "ann";
        comment 2 "Globex (REMOTE) Backend roles open" "bob" ] = Ok rs
    /\ Forall (fun j =>
         job_location j = lit " remote "
         /\ exists c raw text,
              In c [ comment 1 "Acme - Engineer, Berlin" "ann";
                     comment 2 "Globex (REMOTE) Backend roles open" "bob" ]
              /\ get c (lit "text") = Ok (JStr raw)
              /\ _strip_html raw = Ok text
              /\ job_description j = firstn 800 text
              /\ contains_nocase (strip (lit " remote ")) text = true
              /\ (lower (strip (lit " remote ")) = lit "remote" ->
                  contains (lit "remote") (lower text) = true)
              /\ (length text <= 800 ->
                  contains_nocase (strip (lit " remote ")) (job_description j) = true)) rs.
Proof.
  eexists. split.
  - vm_compute. reflexivity.
  - apply (location_override_and_match [lit "backend"]
             (lit " remote ") 50).
    + discriminate.
    + vm_compute. reflexivity.
Defined.

End LocationExample.

(** ** Identifiers *)

Lemma lit_inj (a b : string) : lit a = lit b -> a = b.
Proof.
  unfold lit. intros H.
  rewrite <- (string_of_list_ascii_of_string a), <- (string_of_list_ascii_of_string b).
  f_equal. revert H.
  generalize (list_ascii_of_string a) (list_ascii_of_string b).
  induction l as [|x l IH]; intros [|y l']; cbn [map]; try easy.
  intros [= Hxy Hl]. f_equal; [|now apply IH].
  now rewrite <- (ascii_N_embedding x), <- (ascii_N_embedding y), Hxy.
Qed.

Lemma to_int_proper (z : Z) :
  Z.to_int z <> Decimal.Pos Decimal.Nil /\ Z.to_int z <> Decimal.Neg Decimal.Nil.
Proof.
  destruct z as [|p|p]; cbn; split; try easy;
    intros [= H]; now apply (DecimalPos.Unsigned.to_uint_nonnil p).
Qed.

(** [str] of an integer tells the integers apart. *)
Lemma str_of_Z_inj (x y : Z) : str_of_Z x = str_of_Z y -> x = y.
Proof.
  unfold str_of_Z. intros H. apply lit_inj in H.
  apply DecimalZ.to_int_inj.
  destruct (to_int_proper x) as [Hx1 Hx2], (to_int_proper y) as [Hy1 Hy2].
  pose proof (NilZero.isi _ Hx1 Hx2) as Ex.
  pose proof (NilZero.isi _ Hy1 Hy2) as Ey.
  rewrite H in Ex. rewrite Ex in Ey. now injection Ey.
Qed.

Section Identifiers.
Context {RT : Runtime}.
Variables (terms : list str) (location : option str) (limit : Z).

Lemma job_id_of_comment c j c_id :
  comment_job terms location c = Ok (Some j) ->
  get c (lit "id") = Ok c_id ->
  job_id j = lit "hn_" ++ py_str c_id.
Proof.
  intros H Hid.
  destruct (comment_job_inv _ _ _ _ H) as (c_id' & raw & text & ct & a & Hinv).
  destruct Hinv as (_ & _ & Hid' & _ & _ & _ & _ & _ & _ & _ & ->).
  rewrite Hid in Hid'. now injection Hid' as <-.
Qed.

Lemma collect_NoDup cs : forall acc rs,
  NoDup (map job_id acc
         ++ map (fun v => lit "hn_" ++ py_str v) (identifiers cs)) ->
  collect terms location limit cs acc = Ok rs ->
  NoDup (map job_id rs).
Proof.
  induction cs as [|c cs IH]; intros acc rs HN H.
  - injection H as <-. now apply NoDup_app_remove_r in HN.
  - unfold identifiers in HN. cbn [flat_map] in HN.
    fold (identifiers cs) in HN.
    assert (Hskip : NoDup (map job_id acc
                     ++ map (fun v => lit "hn_" ++ py_str v) (identifiers cs))).
    { destruct (get c (lit "id")) as [v|e]; [|exact HN].
      cbn [app map] in HN. now apply NoDup_remove_1 in HN. }
    assert (Hj : forall j, comment_job terms location c = Ok (Some j) ->
              NoDup (map job_id (acc ++ [j])
                     ++ map (fun v => lit "hn_" ++ py_str v) (identifiers cs))).
    { intros j E.
      destruct (comment_job_inv _ _ _ _ E) as (v & raw & text & ct & a & Hinv).
      destruct Hinv as (_ & _ & Hid & _).
      rewrite Hid in HN. cbn [app map] in HN.
      rewrite map_app, <- app_assoc. cbn [map app].
      now rewrite (job_id_of_comment _ _ _ E Hid). }
    apply collect_cases in H.
    destruct H as [[_ H] | [(j & E & _ & ->) | (j & E & _ & H)]].
    + now apply (IH acc rs).
    + apply (NoDup_app_remove_r _ _ (Hj j E)).
    + apply (IH (acc ++ [j]) rs (Hj j E) H).
Qed.

End Identifiers.

Section SharedIdExample.
Local Existing Instance ascii_runtime.

(** C3, counterexample: nothing removes duplicates, so two comments that
    carry the same identifier give two postings with the same id. *)
Lemma shared_identifier_shared_id :
  exists rs,
    yc_search_comments [] None 50
      [ comment 7 "Acme - Engineer" "ann"; comment 7 "Globex - Developer" "bob" ]
    = Ok rs
    /\ ~ NoDup (map job_id rs).
Proof.
  eexists. split; [vm_compute; reflexivity|].
  intros H. inversion H as [|x l Hin _]; subst. apply Hin. now left.
Qed.

End SharedIdExample.

(** Integers that differ are rendered differently. *)
Lemma distinct_integers_rendered_apart `{RT : Runtime} (vs : list json) :
  Forall (fun v => exists z, v = JInt z) vs ->
  NoDup vs ->
  NoDup (map py_str vs).
Proof.
  intros HF HN. apply NoDup_map_NoDup_ForallPairs; [|exact HN].
  intros x y Hx Hy E. rewrite Forall_forall in HF.
  destruct (HF x Hx) as [zx ->], (HF y Hy) as [zy ->].
  cbn [py_str py_repr] in E. f_equal. now apply str_of_Z_inj.
Qed.

(** C3, as the code has it: when the identifiers that the nodes of the
    comment list carry are pairwise distinct as [str] renders them
    (pairwise distinct integers are), the ids of the postings returned
    are pairwise distinct. *)
Theorem distinct_identifiers_distinct_ids `{RT : Runtime} (terms : list str)
    (location : option str) (limit : Z) (comments : list json)
    (rs : list job) :
  NoDup (map py_str (identifiers comments)) ->
  yc_search_comments terms location limit comments = Ok rs ->
  NoDup (map job_id rs).
Proof.
  intros HN H.
  apply (collect_NoDup terms location limit comments [] rs); [|exact H].
  cbn [map app]. rewrite <- (map_map py_str (fun s => lit "hn_" ++ s)).
  apply NoDup_map_NoDup_ForallPairs; [|exact HN].
  intros x y _ _ E. now apply app_inv_head in E.
Qed.

Section DistinctIdExample.
Local Existing Instance ascii_runtime.

Lemma distinct_identifiers_distinct_ids_witness :
  exists rs,
    yc_search_comments [] None 50
      [ comment 7 "Acme - Engineer" "ann"; JNull;
        comment 8 "Globex - Developer" "bob" ]
    = Ok rs
    /\ NoDup (map job_id rs).
Proof.
  eexists. split.
  - vm_compute. reflexivity.
  - apply (distinct_identifiers_distinct_ids [] None 50
             [ comment 7 "Acme - Engineer" "ann"; JNull;
               comment 8 "Globex - Developer" "bob" ]).
    + apply distinct_integers_rendered_apart.
      * repeat constructor; eexists; reflexivity.
      * repeat constructor; cbn; intuition discriminate.
    + vm_compute. reflexivity.
Defined.

End DistinctIdExample.

(** ** Comments that are passed over, and comments that pass *)

Section Skipping.
Context {RT : Runtime}.
Variables (terms : list str) (location : option str) (limit : Z).

(** Only a dictionary answers [get], and it answers for every key. *)
Lemma get_total c k v : get c k = Ok v -> forall k', exists v', get c k' = Ok v'.
Proof.
  destruct c; try discriminate. intros _ k'. unfold get, get_default.
  destruct (assoc k' kv); eauto.
Qed.

Lemma passed_over_skipped c :
  passed_over c = true -> comment_job terms location c = Ok None.
Proof.
  unfold passed_over, comment_job.
  destruct (truthy c); cbn [negb orb]; [|easy].
  destruct (get c (lit "type")) as [ty|] eqn:Ety; [|easy].
  destruct (get c (lit "text")) as [t|] eqn:Et; [|easy].
  cbn [bind]. destruct (differs ty (lit "comment")); cbn [orb]; [easy|].
  destruct (get_total _ _ _ Ety (lit "id")) as [c_id ->]. cbn [bind].
  destruct (py_or t (JStr [])); try easy.
  destruct (_strip_html s) as [text|e]; cbn [bind]; [now intros -> | easy].
Qed.

Lemma collect_app pre : forall post acc,
  Forall (fun x => comment_job terms location x = Ok None) pre ->
  collect terms location limit (pre ++ post) acc =
  collect terms location limit post acc.
Proof.
  induction pre as [|x pre IH]; intros post acc H; [reflexivity|].
  inversion H as [|x' pre' Hx Hpre]; subst. cbn [app].
  rewrite (collect_skip terms location limit x _ acc Hx). now apply IH.
Qed.

(** Dropping a comment that the loop skips changes nothing. *)
Lemma collect_drop pre : forall c post acc,
  comment_job terms location c = Ok None ->
  collect terms location limit (pre ++ c :: post) acc =
  collect terms location limit (pre ++ post) acc.
Proof.
  induction pre as [|x pre IH]; intros c post acc Hc; cbn [app].
  - now apply collect_skip.
  - cbn [collect]. destruct (comment_job terms location x) as [[j|]|e]; cbn [bind].
    + destruct (limit <=? _)%Z; [reflexivity | now apply IH].
    + now apply IH.
    + reflexivity.
Qed.

(** A comment that passes the filters is turned into a posting unless
    the extraction of company and title raises. *)
Lemma passes_job c :
  passes terms location c = true ->
  (exists j, comment_job terms location c = Ok (Some j))
  \/ (exists e, comment_job terms location c = Raise e).
Proof.
  unfold passes, comment_job.
  destruct (truthy c); cbn [negb andb]; [|easy].
  destruct (get c (lit "type")) as [ty|] eqn:Ety; [|easy].
  destruct (get c (lit "text")) as [t|] eqn:Et; [|easy].
  cbn [bind]. destruct (differs ty (lit "comment")); cbn [negb andb]; [easy|].
  destruct (get_total _ _ _ Ety (lit "id")) as [c_id ->].
  destruct (get_total _ _ _ Ety (lit "author")) as [author ->]. cbn [bind].
  destruct (py_or t (JStr [])); try easy.
  destruct (_strip_html s) as [text|e]; cbn [bind]; [|easy].
  intros H. apply andb_true_iff in H. destruct H as [H Hl].
  apply andb_true_iff in H. destruct H as [Hn Hm].
  rewrite Hn, Hm, Hl. cbn [negb].
  destruct (_extract_company_and_title text) as [ct|e]; cbn [bind]; eauto.
Qed.

End Skipping.

Section AbortExamples.
Local Existing Instance ascii_runtime.

(** C4, counterexample: a comment without an identifier is not skipped;
    it yields a posting whose id is made from [None]. *)
Lemma absent_identifier_not_skipped :
  get (anonymous_comment "Acme - Engineer") (lit "id") = Ok JNull
  /\ exists j,
       yc_search_comments [] None 50 [anonymous_comment "Acme - Engineer"]
       = Ok [j]
       /\ job_id j = lit "hn_None".
Proof.
  split; [reflexivity|]. eexists. split; vm_compute; reflexivity.
Qed.

(** A node that is no dictionary, a text that is no string and a text
    that starts with a full stop and a space each end the search with an
    exception, whatever else the thread holds. *)
Example node_without_get_raises :
  yc_search_comments [] None 50
    [ JStr (lit "deleted"); comment 2 "Globex - Developer" "bob" ]
  = Raise AttributeError.
Proof. vm_compute. reflexivity. Qed.

Example text_without_markup_raises :
  yc_search_comments [] None 50
    [ JObj [(lit "type", JStr (lit "comment")); (lit "id", JInt 1);
            (lit "text", JInt 5)];
      comment 2 "Globex - Developer" "bob" ]
  = Raise TypeError.
Proof. vm_compute. reflexivity. Qed.

(** So does a text with a decimal character reference of more digits
    than the interpreter converts: 4300 digits are read, one more ends
    the search. *)
Example long_reference_raises :
  _strip_html (padded_reference 4300) = Ok []
  /\ _strip_html (padded_reference 4301) = Raise ValueError
  /\ passed_over (padded_comment 1 4300) = true
  /\ passed_over (padded_comment 1 4301) = false
  /\ yc_search_comments [] None 50
       [ padded_comment 1 4301; comment 2 "Globex - Developer" "bob" ]
     = Raise ValueError.
Proof. repeat split; vm_compute; reflexivity. Qed.

(** C9, the code at the failing input: the comment passes the four
    filters and the limit is zero, so exactly one posting is due; the
    first sentence of the text is empty, the extraction of company and
    title indexes an empty list of lines, and the search raises instead
    of returning the posting. *)
Lemma leading_full_stop_raises :
  (0 <= 0)%Z
  /\ passes [] None (comment 1 ". We are hiring" "ann") = true
  /\ yc_search_comments [] None 0 [comment 1 ". We are hiring" "ann"]
     = Raise IndexError.
Proof. split; [lia|]. split; vm_compute; reflexivity. Qed.

End AbortExamples.

(** C4, as the code has it: a node that is null or empty, a node whose
    type is not "comment" and a comment whose text is missing or empty
    once normalized contribute no posting, and the search goes on as if
    the node were not in the list.  A missing identifier is no reason to
    skip: a comment that passes the filters is never skipped, and the
    posting built from one without identifier has the id "hn_None". *)
Theorem passed_over_comment_changes_nothing `{RT : Runtime}
    (terms : list str) (location : option str) (limit : Z) :
  (forall pre c post,
     passed_over c = true ->
     comment_job terms location c = Ok None
     /\ yc_search_comments terms location limit (pre ++ c :: post) =
        yc_search_comments terms location limit (pre ++ post))
  /\ (forall c,
        passes terms location c = true ->
        get c (lit "id") = Ok JNull ->
        comment_job terms location c <> Ok None
        /\ forall j, comment_job terms location c = Ok (Some j) ->
                     job_id j = lit "hn_None").
Proof.
  split.
  - intros pre c post H.
    pose proof (passed_over_skipped terms location c H) as Hc.
    split; [easy|]. now apply collect_drop.
  - intros c Hp Hid. split.
    + destruct (passes_job terms location c Hp) as [[j E] | [e E]];
        rewrite E; discriminate.
    + intros j E. apply (job_id_of_comment terms location c j JNull E Hid).
Qed.

(** The edge case of a limit of zero or less, on the runs that raise
    nothing: if a comment passes the four filters, every node before it
    is skipped, and no exception is raised while it is processed, the
    search returns exactly one posting, the one of that comment (the
    limit is tested only after the posting is appended). *)
Lemma nonpositive_limit_returns_one `{RT : Runtime} (terms : list str)
    (location : option str) (limit : Z) (pre : list json) (c : json)
    (post : list json) :
  (limit <= 0)%Z ->
  Forall (fun x => comment_job terms location x = Ok None) pre ->
  passes terms location c = true ->
  (forall e, comment_job terms location c <> Raise e) ->
  exists j,
    comment_job terms location c = Ok (Some j)
    /\ yc_search_comments terms location limit (pre ++ c :: post) = Ok [j].
Proof.
  intros Hl Hpre Hp Hne.
  destruct (passes_job terms location c Hp) as [[j E] | [e E]];
    [|now destruct (Hne e)].
  exists j. split; [easy|].
  unfold yc_search_comments. rewrite (collect_app terms location limit pre _ [] Hpre).
  rewrite (collect_emit terms location limit c post [] j E).
  cbn [app length]. destruct (limit <=? Z.of_nat 1)%Z eqn:L; [reflexivity|].
  apply Z.leb_gt in L. lia.
Qed.

Section ZeroLimitExample.
Local Existing Instance ascii_runtime.

Example nonpositive_limit_example :
  exists j,
    comment_job [lit "rust"] None (comment 3 "Initech - Rust developer" "cyd")
    = Ok (Some j)
    /\ yc_search_comments [lit "rust"] None 0
         ([ JNull; comment 2 "Globex - Developer" "bob" ]
          ++ comment 3 "Initech - Rust developer" "cyd"
          :: [ comment 4 "Hooli - Rust" "dee" ]) = Ok [j].
Proof.
  apply (nonpositive_limit_returns_one [lit "rust"] None 0
           [ JNull; comment 2 "Globex - Developer" "bob" ]
           (comment 3 "Initech - Rust developer" "cyd")
           [ comment 4 "Hooli - Rust" "dee" ]).
  - lia.
  - repeat constructor.
  - reflexivity.
  - intros e. vm_compute. discriminate.
Defined.

Lemma passed_over_comment_changes_nothing_witness :
  comment_job [] None (JObj [(lit "type", JStr (lit "story"))]) = Ok None
  /\ yc_search_comments [] None 50
       ([ comment 1 "Acme - Engineer" "ann" ]
        ++ JObj [(lit "type", JStr (lit "story"))]
        :: [ comment 2 "Globex - Developer" "bob" ])
     = yc_search_comments [] None 50
         ([ comment 1 "Acme - Engineer" "ann" ]
          ++ [ comment 2 "Globex - Developer" "bob" ]).
Proof.
  apply (proj1 (passed_over_comment_changes_nothing [] None 50)).
  reflexivity.
Defined.

End ZeroLimitExample.

(* ================================================================== *)
(** * Facts about the matcher *)
(* ================================================================== *)

Section Matcher.
Context {RT : Runtime}.

Lemma rep_zero p k prev s pos : rep p k 0 (Some 0) prev s pos = k prev s pos.
Proof. destruct s; cbn; [easy|]. now rewrite andb_false_r. Qed.

(** One character of a class. *)
Lemma rep_one p k prev s pos :
  rep p k 1 (Some 1) prev s pos =
  match s with
  | x :: s' => if p x then k (Some x) s' (S pos) else None
  | [] => None
  end.
Proof.
  destruct s as [|x s']; cbn; [easy|].
  rewrite andb_true_r. destruct (p x); [|easy].
  rewrite rep_zero. now destruct (k (Some x) s' (S pos)).
Qed.

(** A literal matches where the text starts with it. *)
Lemma match_literal key : forall r prev s pos,
  match_here (literal key ++ r) prev s pos =
  if starts_with key s
  then match_here r (last_or prev key) (skipn (length key) s) (pos + length key)
  else None.
Proof.
  induction key as [|c key IH]; intros r prev s pos.
  - cbn. now rewrite Nat.add_0_r.
  - cbn [literal map app match_here One]. rewrite rep_one.
    destruct s as [|x s']; [easy|]. cbn [starts_with last_or length skipn].
    unfold chr at 1. rewrite (N.eqb_sym c x).
    destruct (x =? c)%N eqn:E; [|easy]. cbn [andb].
    apply N.eqb_eq in E. subst x.
    change (map (fun c0 => One (chr c0)) key) with (literal key).
    rewrite IH. now rewrite Nat.add_succ_r.
Qed.

Lemma last_or_some prev x key : last_or prev (x :: key) = last_or None (x :: key).
Proof. reflexivity. Qed.

Lemma starts_with_hd key s :
  starts_with key s = true -> key <> [] -> hd_error s = hd_error key.
Proof.
  destruct key as [|c key]; [easy|]. destruct s as [|x s]; [easy|].
  cbn. intros H _. apply andb_true_iff in H. destruct H as [H _].
  apply N.eqb_eq in H. now subst.
Qed.

Lemma match_word key prev s pos :
  proper_key key = true ->
  match_alt (word_re key) prev s pos =
  if word_at key prev s then Some (pos + length key, []) else None.
Proof.
  unfold proper_key, word_at. intros H. apply andb_true_iff in H.
  destruct H as [Hhd Hlast].
  assert (Hne : key <> []) by (now destruct key).
  unfold word_re. cbn [match_alt match_here].
  rewrite match_literal. cbn [match_here].
  destruct (starts_with key s) eqn:Es.
  - rewrite (starts_with_hd _ _ Es Hne), Hhd.
    destruct key as [|c key]; [easy|]. rewrite last_or_some, Hlast.
    destruct (is_word_opt prev); cbn [xorb negb andb]; [easy|].
    now destruct (is_word_opt (hd_error (skipn (length (c :: key)) s))).
  - rewrite andb_false_r. cbn [andb].
    now destruct (xorb (is_word_opt prev) (is_word_opt (hd_error s))).
Qed.

Lemma skipn_app_exact (key post : str) : skipn (length key) (key ++ post) = post.
Proof. induction key; cbn; auto. Qed.

(** The search for a whole word finds it exactly where there is one. *)
Lemma search_word key : proper_key key = true -> forall s prev pos,
  search_from (word_re key) prev s pos <> None <->
  exists pre post,
    s = pre ++ key ++ post
    /\ is_word_opt (last_or prev pre) = false
    /\ is_word_opt (hd_error post) = false.
Proof.
  intros Hk. induction s as [|x s IH]; intros prev pos.
  - cbn [search_from]. rewrite (match_word _ _ _ _ Hk). split.
    + destruct (word_at key prev []) eqn:E; [intros _|easy].
      unfold word_at in E. apply andb_true_iff in E. destruct E as [E E3].
      apply andb_true_iff in E. destruct E as [E1 E2].
      apply starts_with_spec in E2. destruct E2 as [post E2].
      exists [], post. cbn [app last_or]. split; [easy|].
      rewrite E2, skipn_app_exact in E3.
      split; [now apply negb_true_iff in E1 | now apply negb_true_iff in E3].
    + intros (pre & post & E & H1 & H2).
      destruct pre; [|easy]. cbn [app last_or] in *.
      unfold word_at. rewrite H1. rewrite E at 1 2.
      rewrite skipn_app_exact, H2.
      replace (starts_with key (key ++ post)) with true; [easy|].
      symmetry. apply starts_with_spec. now exists post.
  - cbn [search_from]. rewrite (match_word _ _ _ _ Hk). split.
    + destruct (word_at key prev (x :: s)) eqn:E.
      * intros _. unfold word_at in E.
        apply andb_true_iff in E. destruct E as [E E3].
        apply andb_true_iff in E. destruct E as [E1 E2].
        apply starts_with_spec in E2. destruct E2 as [post E2].
        exists [], post. cbn [app last_or]. split; [easy|].
        rewrite E2, skipn_app_exact in E3.
        split; [now apply negb_true_iff in E1 | now apply negb_true_iff in E3].
      * intros H. apply IH in H. destruct H as (pre & post & -> & H1 & H2).
        now exists (x :: pre), post.
    + intros (pre & post & E & H1 & H2).
      destruct (word_at key prev (x :: s)) eqn:Ew; [easy|].
      destruct pre as [|y pre].
      * exfalso. cbn [app last_or] in *. unfold word_at in Ew.
        rewrite H1 in Ew. rewrite E in Ew.
        rewrite skipn_app_exact, H2 in Ew.
        replace (starts_with key (key ++ post)) with true in Ew; [easy|].
        symmetry. apply starts_with_spec. now exists post.
      * injection E as -> ->. apply IH. now exists pre, post.
Qed.

Lemma re_search_word key t :
  proper_key key = true ->
  re_search (word_re key) t <> None <-> whole_word key t.
Proof. intros Hk. apply (search_word key Hk t None 0). Qed.

End Matcher.

(** ** Location extraction *)

Section Location.
Context {RT : Runtime}.

Lemma cities_proper : forallb (fun kp => proper_key (fst kp)) cities = true.
Proof. reflexivity. Qed.

Lemma scan_cities_none cs t :
  (forall k p, In (k, p) cs -> re_search (word_re k) t = None) ->
  scan_cities cs t = [].
Proof.
  induction cs as [|[k p] cs IH]; intros H; [reflexivity|].
  cbn [scan_cities]. rewrite (H k p (or_introl eq_refl)).
  apply IH. intros k' p' Hin. apply (H k' p'). now right.
Qed.

Lemma scan_cities_first before key proper after t :
  (forall k p, In (k, p) before -> re_search (word_re k) t = None) ->
  re_search (word_re key) t <> None ->
  scan_cities (before ++ (key, proper) :: after) t = proper.
Proof.
  induction before as [|[k p] before IH]; intros Hb Hk; cbn [app scan_cities].
  - now destruct (re_search (word_re key) t).
  - rewrite (Hb k p (or_introl eq_refl)).
    apply IH; [|easy]. intros k' p' Hin. apply (Hb k' p'). now right.
Qed.

Lemma not_found_iff key t :
  proper_key key = true ->
  re_search (word_re key) t = None <-> ~ whole_word key t.
Proof.
  intros Hk. rewrite <- (re_search_word key t Hk).
  destruct (re_search (word_re key) t); split; try easy.
  intros H. now destruct H.
Qed.

Lemma cities_key_proper k p : In (k, p) cities -> proper_key k = true.
Proof.
  intros Hin. pose proof cities_proper as H.
  rewrite forallb_forall in H. apply (H (k, p) Hin).
Qed.

End Location.

(** C7: location extraction answers "Remote" when the text in lower case
    contains "remote"; otherwise the label of the first keyword, in the
    order san francisco, sf, new york, nyc, seattle, austin, boston,
    london, berlin, toronto, that occurs in the lowered text as a whole
    word; otherwise the empty string. *)
Theorem extract_location_spec `{RT : Runtime} (text : str) :
  cities =
    [ (lit "san francisco", lit "San Francisco"); (lit "sf", lit "San Francisco");
      (lit "new york", lit "New York"); (lit "nyc", lit "New York");
      (lit "seattle", lit "Seattle"); (lit "austin", lit "Austin");
      (lit "boston", lit "Boston"); (lit "london", lit "London");
      (lit "berlin", lit "Berlin"); (lit "toronto", lit "Toronto") ]
  /\ (contains (lit "remote") (lower text) = true ->
      _extract_location text = lit "Remote")
  /\ (contains (lit "remote") (lower text) = false ->
      forall before key proper after,
        cities = before ++ (key, proper) :: after ->
        (forall k p, In (k, p) before -> ~ whole_word k (lower text)) ->
        whole_word key (lower text) ->
        _extract_location text = proper)
  /\ (contains (lit "remote") (lower text) = false ->
      (forall k p, In (k, p) cities -> ~ whole_word k (lower text)) ->
      _extract_location text = []).
Proof.
  split; [reflexivity|]. unfold _extract_location.
  split; [now intros ->|]. split.
  - intros -> before key proper after E Hb Hk. rewrite E.
    assert (Hin : forall k p, In (k, p) before -> In (k, p) cities).
    { intros k p H. rewrite E. apply in_or_app. now left. }
    assert (Hkey : In (key, proper) cities).
    { rewrite E. apply in_or_app. right. now left. }
    apply scan_cities_first.
    + intros k p H. apply not_found_iff; [|now apply (Hb k p)].
      apply (cities_key_proper k p (Hin k p H)).
    + apply re_search_word; [|easy]. apply (cities_key_proper key proper Hkey).
  - intros -> H. apply scan_cities_none.
    intros k p Hin. apply not_found_iff; [|now apply (H k p)].
    apply (cities_key_proper k p Hin).
Qed.

Section LocationExamples.
Local Existing Instance ascii_runtime.

Example extract_location_remote :
  _extract_location (lit "Acme | Berlin or REMOTE | Rust") = lit "Remote".
Proof. vm_compute. reflexivity. Qed.

Example extract_location_order :
  _extract_location (lit "Offices in NYC and SF.") = lit "San Francisco".
Proof. vm_compute. reflexivity. Qed.

Example extract_location_whole_word :
  _extract_location (lit "We moved to sfo; relocation from Bostonia paid") = [].
Proof. vm_compute. reflexivity. Qed.

End LocationExamples.

Section LocationWitness.
Local Existing Instance ascii_runtime.

Lemma extract_location_spec_witness :
  _extract_location (lit "Offices in NYC and SF.") = lit "San Francisco".
Proof.
  apply (proj1 (proj2 (proj2 (extract_location_spec (lit "Offices in NYC and SF.")))))
    with (before := [(lit "san francisco", lit "San Francisco")])
         (key := lit "sf")
         (after := skipn 2 cities).
  - vm_compute. reflexivity.
  - reflexivity.
  - intros k p [E | []]. injection E as <- <-.
    apply not_found_iff; [reflexivity | vm_compute; reflexivity].
  - exists (lit "offices in nyc and "), (lit ".").
    split; [vm_compute; reflexivity|]. split; reflexivity.
Defined.

End LocationWitness.

(** ** Normalization *)

Section Normalize.
Context {RT : Runtime}.

(** Without a [<] there is no tag to replace. *)
Lemma sub_tag_id s : forall prev,
  ~ In 60%N s -> sub_go tag_re (fun _ _ => lit " ") 0 prev s = s.
Proof.
  induction s as [|x s IH]; intros prev H; [reflexivity|].
  cbn [sub_go tag_re match_alt match_here One]. rewrite rep_one.
  unfold chr at 1. destruct (x =? 60)%N eqn:E.
  - apply N.eqb_eq in E. exfalso. apply H. now left.
  - f_equal. apply IH. intros Hin. apply H. now right.
Qed.

(** Without an ampersand there is no reference to decode. *)
Lemma unescape_id s : ~ In 38%N s -> unescape s = Ok s.
Proof.
  intros H. unfold unescape.
  replace (existsb (N.eqb 38) s) with false; [reflexivity|].
  symmetry. apply not_true_is_false. intros E.
  apply existsb_exists in E. destruct E as (x & Hin & E).
  apply N.eqb_eq in E. now subst.
Qed.

(** [\s+] matches the blanks at the front, all of them. *)
Lemma rep_blanks s : forall lo prev pos,
  rep is_space (match_here []) lo None prev s pos =
  if lo <=? blanks s then Some (pos + blanks s, []) else None.
Proof.
  induction s as [|x s IH]; intros lo prev pos.
  - cbn. destruct lo; cbn; [now rewrite Nat.add_0_r | easy].
  - cbn [rep blanks may_take option_map]. rewrite andb_true_r.
    destruct (is_space x).
    + rewrite IH. destruct lo as [|lo]; cbn [pred Nat.leb].
      * now rewrite Nat.add_succ_r.
      * destruct (lo <=? blanks s); [now rewrite Nat.add_succ_r | easy].
    + destruct lo; cbn; [now rewrite Nat.add_0_r | easy].
Qed.

Lemma match_spaces prev s :
  match_alt spaces_re prev s 0 =
  match blanks s with
  | O => None
  | S n => Some (S n, [])
  end.
Proof.
  cbn [spaces_re match_alt match_here Plus]. rewrite rep_blanks.
  now destruct (blanks s).
Qed.

(** The substitution of [\s+] is the direct scan. *)
Lemma sub_spaces s : forall prev,
  sub_go spaces_re (fun _ _ => lit " ") 0 prev s = collapse false s
  /\ sub_go spaces_re (fun _ _ => lit " ") (blanks s) prev s = collapse true s.
Proof.
  induction s as [|x s IH]; intros prev; [easy|].
  assert (H0 : sub_go spaces_re (fun _ _ => lit " ") 0 prev (x :: s)
               = collapse false (x :: s)).
  { cbn [sub_go]. rewrite match_spaces. cbn [blanks collapse].
    destruct (is_space x).
    - cbn [app lit]. change (lit " ") with [32%N]. cbn [app].
      f_equal. apply IH.
    - f_equal. apply IH. }
  split; [exact H0|].
  cbn [blanks collapse]. destruct (is_space x) eqn:E.
  - cbn [sub_go]. apply IH.
  - rewrite H0. cbn [collapse]. now rewrite E.
Qed.

Lemma re_sub_spaces s : re_sub spaces_re (lit " ") s = collapse false s.
Proof. apply sub_spaces. Qed.

Lemma collapse_single_spaced s : forall b,
  single_spaced (collapse b s) = true
  /\ starts_clean (collapse true s) = true.
Proof.
  induction s as [|x s IH]; intros b; [easy|].
  cbn [collapse]. destruct (is_space x) eqn:E.
  - destruct (IH true) as [H1 H2]. split; [|easy].
    destruct b; [easy|]. cbn [single_spaced].
    change (is_space 32) with true. cbn [N.eqb andb].
    rewrite H1, andb_true_r. exact H2.
  - destruct (IH false) as [H1 _]. split.
    + cbn [single_spaced]. now rewrite E.
    + cbn. now rewrite E.
Qed.

Lemma collapse_clean s :
  starts_clean s = true -> collapse true s = collapse false s.
Proof.
  destruct s as [|x s]; [easy|]. cbn. intros H.
  apply negb_true_iff in H. now rewrite H.
Qed.

Lemma single_spaced_fixed s : single_spaced s = true -> collapse false s = s.
Proof.
  induction s as [|x s IH]; [easy|]. cbn [single_spaced collapse].
  intros H. apply andb_true_iff in H. destruct H as [Hx Hs].
  destruct (is_space x).
  - apply andb_true_iff in Hx. destruct Hx as [Hx Hn].
    apply N.eqb_eq in Hx. subst x. f_equal.
    rewrite collapse_clean; [now apply IH | exact Hn].
  - f_equal. now apply IH.
Qed.

End Normalize.

Section Strip.

Lemma lstrip_clean s : starts_clean (lstrip s) = true.
Proof.
  induction s as [|x s IH]; [easy|]. cbn [lstrip].
  destruct (is_space x) eqn:E; [easy|]. cbn. now rewrite E.
Qed.

Lemma lstrip_fixed s : starts_clean s = true -> lstrip s = s.
Proof.
  destruct s as [|x s]; [easy|]. cbn. intros H.
  apply negb_true_iff in H. now rewrite H.
Qed.

(** [lstrip] drops a front of blanks. *)
Lemma lstrip_suffix s : exists d, s = d ++ lstrip s.
Proof.
  induction s as [|x s [d IH]]; [now exists []|]. cbn [lstrip].
  destruct (is_space x).
  - exists (x :: d). cbn. now f_equal.
  - now exists [].
Qed.

(** [rstrip] drops a back of blanks. *)
Lemma rstrip_prefix s : exists d, s = rstrip s ++ d.
Proof.
  unfold rstrip. destruct (lstrip_suffix (rev s)) as [d H].
  exists (rev d). rewrite <- rev_app_distr, <- H. now rewrite rev_involutive.
Qed.

Lemma rstrip_fixed s : rstrip (rstrip s) = rstrip s.
Proof.
  unfold rstrip. rewrite rev_involutive.
  now rewrite (lstrip_fixed _ (lstrip_clean (rev s))).
Qed.

Lemma rstrip_clean s : starts_clean s = true -> starts_clean (rstrip s) = true.
Proof.
  intros H. destruct (rstrip_prefix s) as [d E].
  destruct (rstrip s) as [|y r]; [easy|]. rewrite E in H. exact H.
Qed.

(** A stripped string is left as it is by [strip]. *)
Lemma strip_fixed s : strip (strip s) = strip s.
Proof.
  unfold strip.
  rewrite (lstrip_fixed (rstrip (lstrip s))).
  - apply rstrip_fixed.
  - apply rstrip_clean, lstrip_clean.
Qed.

Lemma single_spaced_tail x s : single_spaced (x :: s) = true -> single_spaced s = true.
Proof. cbn [single_spaced]. intros H. now apply andb_true_iff in H. Qed.

Lemma single_spaced_suffix d : forall s,
  single_spaced (d ++ s) = true -> single_spaced s = true.
Proof.
  induction d as [|x d IH]; intros s H; [easy|].
  apply IH. now apply (single_spaced_tail x).
Qed.

Lemma single_spaced_prefix s : forall d,
  single_spaced (s ++ d) = true -> single_spaced s = true.
Proof.
  induction s as [|x s IH]; intros d H; [easy|].
  cbn [app single_spaced] in *. apply andb_true_iff in H. destruct H as [Hx Hs].
  rewrite (IH d Hs), andb_true_r.
  destruct (is_space x); [|easy].
  apply andb_true_iff in Hx. destruct Hx as [-> Hn].
  now destruct s.
Qed.

Lemma single_spaced_strip s : single_spaced s = true -> single_spaced (strip s) = true.
Proof.
  intros H. unfold strip.
  destruct (lstrip_suffix s) as [d Hd]. rewrite Hd in H.
  apply single_spaced_suffix in H.
  destruct (rstrip_prefix (lstrip s)) as [d' Hd']. rewrite Hd' in H.
  now apply single_spaced_prefix in H.
Qed.

End Strip.

Section Idempotence.
Context {RT : Runtime}.

(** The last two steps of [_strip_html] leave their own result as it
    is. *)
Lemma tidy_fixed s :
  strip (re_sub spaces_re (lit " ") (strip (re_sub spaces_re (lit " ") s)))
  = strip (re_sub spaces_re (lit " ") s).
Proof.
  rewrite !re_sub_spaces.
  rewrite (single_spaced_fixed (strip (collapse false s))).
  - apply strip_fixed.
  - apply single_spaced_strip, collapse_single_spaced.
Qed.

End Idempotence.

Section EscapedMarkupExample.
Local Existing Instance ascii_runtime.

(** C2, counterexample: the references are decoded after the tags are
    removed, so markup written with references comes out of the first
    pass as a tag and is removed by the second. *)
Lemma escaped_markup_not_fixed :
  _strip_html (lit "&#60;b&#62;") = Ok (lit "<b>")
  /\ _strip_html (lit "<b>") = Ok []
  /\ bind (_strip_html (lit "&#60;b&#62;")) _strip_html
     <> _strip_html (lit "&#60;b&#62;").
Proof.
  split; [vm_compute; reflexivity|]. split; [vm_compute; reflexivity|].
  vm_compute. discriminate.
Qed.

Example escaped_ampersand_not_fixed :
  _strip_html (lit "AT&amp;amp;T") = Ok (lit "AT&amp;T")
  /\ _strip_html (lit "AT&amp;T") = Ok (lit "AT&T").
Proof. split; vm_compute; reflexivity. Qed.

End EscapedMarkupExample.

(** What the normalizer returns is the result of its last two steps. *)
Lemma strip_html_tidied `{RT : Runtime} (x y : str) :
  _strip_html x = Ok y ->
  exists z, y = strip (re_sub spaces_re (lit " ") z).
Proof.
  unfold _strip_html. intros H.
  destruct (unescape (re_sub tag_re (lit " ") x)) as [z|e]; [|discriminate].
  injection H as <-. now exists z.
Qed.

(** Without [<] and [&] in it, a normalized text has neither a tag nor
    a reference, and a second pass leaves it as it is. *)
Lemma strip_html_plain_fixed `{RT : Runtime} (x y : str) :
  _strip_html x = Ok y ->
  ~ In 60%N y ->
  ~ In 38%N y ->
  _strip_html y = Ok y.
Proof.
  intros H Hlt Hamp. destruct (strip_html_tidied x y H) as [z ->].
  unfold _strip_html. unfold re_sub at 1.
  rewrite (sub_tag_id _ None Hlt), (unescape_id _ Hamp). cbn [bind].
  f_equal. apply tidy_fixed.
Qed.

(** C2, as the code has it: normalizing a normalized text gives the same
    text whenever the normalized text holds no tag to remove and no
    reference that decoding changes (as is the case when it has neither
    [<] nor [&] in it); the collapsing of blanks and the trimming never
    undo a fixed point. *)
Theorem strip_html_idempotent `{RT : Runtime} (x y : str) :
  _strip_html x = Ok y ->
  re_sub tag_re (lit " ") y = y ->
  unescape y = Ok y ->
  _strip_html y = Ok y.
Proof.
  intros H Htag Hdec. destruct (strip_html_tidied x y H) as [z ->].
  unfold _strip_html. rewrite Htag, Hdec. cbn [bind].
  f_equal. apply tidy_fixed.
Qed.

Section NormalizeExample.
Local Existing Instance ascii_runtime.

Lemma strip_html_idempotent_witness :
  exists y,
    _strip_html (lit "<p>Globex   (Remote)</p> R&D &#8212; 3 < 5") = Ok y
    /\ _strip_html y = Ok y.
Proof.
  eexists. split.
  - vm_compute. reflexivity.
  - apply (strip_html_idempotent
             (lit "<p>Globex   (Remote)</p> R&D &#8212; 3 < 5")).
    + vm_compute. reflexivity.
    + vm_compute. reflexivity.
    + vm_compute. reflexivity.
Defined.

End NormalizeExample.

(** ** The thread locator and the whole search *)

Section Network.
Context {RT : Runtime}.
Variable net : network.

(** The locator with the hits in hand. *)
Lemma locator_unfold n :
  _latest_who_is_hiring_story_id net n =
  match try_io (dated_hits net) (fallback_hits net) n with
  | (Ok hits, n') =>
      match iterate hits with
      | Ok items =>
          match scan_hits items with
          | Ok (Some z) => (Ok (Some z), n')
          | Ok None =>
              if truthy hits
              then (try_except
                      (h <- item0 hits;; z <- object_id h;; Ok (Some z))
                      (Ok None), n')
              else (Ok None, n')
          | Raise e => (Raise e, n')
          end
      | Raise e => (Raise e, n')
      end
  | (Raise e, n') => (Raise e, n')
  end.
Proof.
  unfold _latest_who_is_hiring_story_id, bind_io.
  change (try_io _ _ n) with (try_io (dated_hits net) (fallback_hits net) n).
  destruct (try_io (dated_hits net) (fallback_hits net) n) as [[hits|e] n']; [|easy].
  unfold lift. destruct (iterate hits) as [items|e]; [|easy].
  destruct (scan_hits items) as [[z|]|e]; try easy.
  now destruct (truthy hits).
Qed.

Lemma locator_no_hits n n1 :
  try_io (dated_hits net) (fallback_hits net) n = (Ok (JArr []), n1) ->
  _latest_who_is_hiring_story_id net n = (Ok None, n1).
Proof. intros H. rewrite locator_unfold, H. reflexivity. Qed.

Lemma yc_search_no_thread terms location limit verbose n n1 :
  _latest_who_is_hiring_story_id net n = (Ok None, n1) ->
  yc_search net terms location limit verbose n = (Ok [], n1).
Proof.
  intros H. unfold yc_search, bind_io, try_io, retrieve, bind_io.
  now rewrite H.
Qed.

(** Whatever the network does, the first half of the search raises
    nothing: the search returns the empty list or goes on to the
    comments it has fetched. *)
Lemma yc_search_cases terms location limit verbose n :
  (exists n', yc_search net terms location limit verbose n = (Ok [], n'))
  \/ (exists comments n',
        retrieve net n = (Ok (Some comments), n')
        /\ yc_search net terms location limit verbose n =
           ((cs <- iterate comments;;
             yc_search_comments terms location limit cs), n')).
Proof.
  unfold yc_search, bind_io, try_io.
  destruct (retrieve net n) as [[[comments|]|e] n'].
  - right. exists comments, n'. split; reflexivity.
  - left. now exists n'.
  - left. now exists n'.
Qed.

(** The bound of C5 for the whole search, on any network. *)
Lemma yc_search_bound terms location limit verbose n rs n' :
  (0 < limit)%Z ->
  yc_search net terms location limit verbose n = (Ok rs, n') ->
  (Z.of_nat (length rs) <= limit)%Z.
Proof.
  intros Hl H.
  destruct (yc_search_cases terms location limit verbose n)
    as [[m E] | (comments & m & _ & E)]; rewrite E in H.
  - injection H as <- _. cbn. lia.
  - injection H as H _. unfold lift in H.
    destruct (iterate comments) as [cs|e]; [|easy]. cbn [bind] in H.
    apply (collect_bound terms location limit cs [] rs Hl H).
Qed.

End Network.

(** C6: when the search that supplies the hits finds none (the dated
    search, or the fallback search after the dated one has failed), the
    thread locator returns nothing and the search returns the empty
    list without raising. *)
Theorem no_hits_no_postings `{RT : Runtime} (net : network)
    (terms : list str) (location : option str) (limit : Z) (verbose : bool)
    (n n1 : nat) :
  dated_hits net n = (Ok (JArr []), n1)
  \/ (exists e n0,
        dated_hits net n = (Raise e, n0)
        /\ fallback_hits net n0 = (Ok (JArr []), n1)) ->
  _latest_who_is_hiring_story_id net n = (Ok None, n1)
  /\ yc_search net terms location limit verbose n = (Ok [], n1).
Proof.
  intros H.
  assert (Hl : _latest_who_is_hiring_story_id net n = (Ok None, n1)).
  { apply locator_no_hits. unfold try_io.
    destruct H as [-> | (e & n0 & -> & H)]; [reflexivity | exact H]. }
  split; [exact Hl | now apply yc_search_no_thread].
Qed.

Section NetworkExamples.
Local Existing Instance ascii_runtime.

Lemma no_hits_no_postings_witness :
  _latest_who_is_hiring_story_id silent_net 0 = (Ok None, 1)
  /\ yc_search silent_net [lit "python"] (Some (lit "Remote")) 25 false 0
     = (Ok [], 1).
Proof.
  apply (no_hits_no_postings silent_net [lit "python"] (Some (lit "Remote"))
           25 false 0 1).
  left. vm_compute. reflexivity.
Defined.

(** The dated search fails three times, the fallback finds nothing. *)
Example dated_down_no_postings :
  _latest_who_is_hiring_story_id dated_down_net 0 = (Ok None, 4)
  /\ yc_search dated_down_net [] None 25 false 0 = (Ok [], 4).
Proof.
  split; vm_compute; reflexivity.
Qed.

(** A whole run: one thread, three replies (one of them a nested story
    node), two postings. *)
Example one_thread_run :
  exists j1 j2,
    yc_search
      (one_thread_net
         [ comment 555 "<p>Globex (Remote) Backend roles open</p>" "jdoe";
           JObj [(lit "type", JStr (lit "story"))];
           comment 556 "Acme Corp - Senior Engineer. We are hiring in Berlin" "ann" ])
      [] None 25 false 0 = (Ok [j1; j2], 2)
    /\ job_id j1 = lit "hn_555"
    /\ job_location j1 = lit "Remote"
    /\ job_url j1 = lit "https://news.ycombinator.com/item?id=555"
    /\ job_company j2 = JStr (lit "Acme Corp")
    /\ job_title j2 = lit "Senior Engineer"
    /\ job_location j2 = lit "Berlin".
Proof.
  do 2 eexists. split; [vm_compute; reflexivity|].
  repeat split; vm_compute; reflexivity.
Qed.

End NetworkExamples.

(* ================================================================== *)
(** * Further properties of the program *)
(* ================================================================== *)

(** ** Requests and retries *)

Section Retries.
Context {RT : Runtime}.
Variable net : network.

Lemma http_attempts_spec req retries fuel : forall attempt n r n',
  attempt + fuel = retries + 1 ->
  attempt <= retries ->
  http_attempts net req retries fuel attempt n = (r, n') ->
  exists k,
    attempt + k <= retries
    /\ n' = n + k + 1
    /\ (forall i, i < k -> exists e, net (n + i) req = Raise e)
    /\ net (n + k) req = r
    /\ (forall e, r = Raise e -> attempt + k = retries).
Proof.
  induction fuel as [|fuel IH]; intros attempt n r n' Hsum Hle H; [lia|].
  cbn [http_attempts] in H. destruct (net n req) as [v|e] eqn:E.
  - injection H as <- <-. exists 0. rewrite !Nat.add_0_r.
    repeat split; [lia | lia | intros i Hi; lia | exact E | discriminate].
  - destruct (attempt <? retries) eqn:L.
    + apply Nat.ltb_lt in L.
      destruct (IH (S attempt) (S n) r n') as (k & H1 & H2 & H3 & H4 & H5);
        [lia | lia | exact H |].
      exists (S k). repeat split.
      * lia.
      * lia.
      * intros [|i] Hi; [rewrite Nat.add_0_r; eauto|].
        replace (n + S i) with (S n + i) by lia. apply H3. lia.
      * replace (n + S k) with (S n + k) by lia. exact H4.
      * intros e' He. specialize (H5 e' He). lia.
    + apply Nat.ltb_ge in L. injection H as <- <-. exists 0.
      rewrite !Nat.add_0_r.
      repeat split; [lia | lia | intros i Hi; lia | exact E | intros; lia].
Qed.

End Retries.

(** X1: [_http_get_json] sends the request at most [retries + 1] times.
    It returns the first answer that is no failure, having seen only
    failures before; it raises only after [retries + 1] failures, and
    then the last of them. *)
Theorem http_get_json_attempts `{RT : Runtime} (net : network) (u : str)
    (ps : option (list (str * json))) (retries n : nat)
    (r : result json) (n' : nat) :
  _http_get_json net u ps retries n = (r, n') ->
  exists k,
    k <= retries
    /\ n' = n + k + 1
    /\ (forall i, i < k -> exists e, net (n + i) (request_of u ps) = Raise e)
    /\ net (n + k) (request_of u ps) = r
    /\ (forall e, r = Raise e -> k = retries).
Proof.
  intros H. unfold _http_get_json in H.
  destruct (http_attempts_spec net (request_of u ps) retries (retries + 1) 0 n r n')
    as (k & H1 & H2 & H3 & H4 & H5); [lia | lia | exact H |].
  exists k. repeat split; auto.
Qed.

Section RetryExample.
Local Existing Instance ascii_runtime.

Lemma http_get_json_attempts_witness :
  exists k,
    k <= 2
    /\ 2 = 0 + k + 1
    /\ (forall i, i < k ->
          exists e, first_down_net (0 + i) (request_of ALGOLIA_SEARCH_URL None) = Raise e)
    /\ first_down_net (0 + k) (request_of ALGOLIA_SEARCH_URL None)
       = Ok (JObj [(lit "hits", JArr [])])
    /\ (forall e, Ok (JObj [(lit "hits", JArr [])]) = Raise e -> k = 2).
Proof.
  apply (http_get_json_attempts first_down_net ALGOLIA_SEARCH_URL None 2 0).
  reflexivity.
Defined.

End RetryExample.

Section Budget.
Context {RT : Runtime}.
Variable net : network.

Lemma http_cost u ps n r n' :
  _http_get_json net u ps 2 n = (r, n') -> n < n' <= n + 3.
Proof.
  intros H. unfold _http_get_json in H.
  destruct (http_attempts_spec net (request_of u ps) 2 (2 + 1) 0 n r n')
    as (k & H1 & -> & _); [lia | lia | exact H | lia].
Qed.

Lemma dated_hits_cost n r n' : dated_hits net n = (r, n') -> n < n' <= n + 3.
Proof.
  unfold dated_hits, bind_io, lift. intros H.
  destruct (_http_get_json net ALGOLIA_SEARCH_BY_DATE_URL (Some by_date_params) 2 n)
    as [[d|e] m] eqn:E; injection H as _ <-; apply (http_cost _ _ _ _ _ E).
Qed.

Lemma fallback_hits_cost n r n' : fallback_hits net n = (r, n') -> n < n' <= n + 3.
Proof.
  unfold fallback_hits, bind_io, lift. intros H.
  destruct (_http_get_json net ALGOLIA_SEARCH_URL (Some search_params) 2 n)
    as [[d|e] m] eqn:E; injection H as _ <-; apply (http_cost _ _ _ _ _ E).
Qed.

Lemma hits_cost n r n' :
  try_io (dated_hits net) (fallback_hits net) n = (r, n') -> n < n' <= n + 6.
Proof.
  unfold try_io. intros H.
  destruct (dated_hits net n) as [[h|e] m] eqn:E.
  - injection H as _ <-. pose proof (dated_hits_cost _ _ _ E). lia.
  - pose proof (dated_hits_cost _ _ _ E). pose proof (fallback_hits_cost _ _ _ H). lia.
Qed.

Lemma locator_cost n r n' :
  _latest_who_is_hiring_story_id net n = (r, n') -> n < n' <= n + 6.
Proof.
  rewrite locator_unfold. intros H.
  destruct (try_io (dated_hits net) (fallback_hits net) n) as [[hits|e] m] eqn:E.
  - assert (n' = m).
    { destruct (iterate hits) as [items|e]; [|now injection H].
      destruct (scan_hits items) as [[z|]|e]; try now injection H.
      destruct (truthy hits); now injection H. }
    subst. apply (hits_cost _ _ _ E).
  - injection H as _ <-. apply (hits_cost _ _ _ E).
Qed.

Lemma fetch_cost story_id n r n' :
  _fetch_thread_comments net story_id n = (r, n') -> n < n' <= n + 3.
Proof.
  unfold _fetch_thread_comments, bind_io, lift, ret. intros H.
  destruct (_http_get_json net (ALGOLIA_ITEM_URL (JInt story_id)) None 2 n)
    as [[d|e] m] eqn:E.
  - pose proof (http_cost _ _ _ _ _ E).
    destruct (get_default d (lit "children") (JArr [])); injection H as _ <-; lia.
  - injection H as _ <-. apply (http_cost _ _ _ _ _ E).
Qed.

Lemma retrieve_cost n r n' : retrieve net n = (r, n') -> n < n' <= n + 9.
Proof.
  unfold retrieve, bind_io, ret. intros H.
  destruct (_latest_who_is_hiring_story_id net n) as [[[z|]|e] m] eqn:E.
  - pose proof (locator_cost _ _ _ E).
    destruct (_fetch_thread_comments net z m) as [[c|e] m'] eqn:F;
      pose proof (fetch_cost _ _ _ _ F); injection H as _ <-; lia.
  - injection H as _ <-. pose proof (locator_cost _ _ _ E). lia.
  - injection H as _ <-. pose proof (locator_cost _ _ _ E). lia.
Qed.

End Budget.

(** X2: one search sends at least one request and at most nine: three
    attempts for each of the dated search, the fallback search and the
    fetch of the thread. *)
Theorem yc_search_request_budget `{RT : Runtime} (net : network)
    (terms : list str) (location : option str) (limit : Z) (verbose : bool)
    (n : nat) :
  n < snd (yc_search net terms location limit verbose n) <= n + 9.
Proof.
  unfold yc_search, bind_io, try_io, ret, lift.
  destruct (retrieve net n) as [[[c|]|e] m] eqn:E;
    pose proof (retrieve_cost net _ _ _ E); cbn [snd]; lia.
Qed.

(** ** Exceptions *)

Section Exceptions.
Context {RT : Runtime}.

Lemma get_raises c k e : get c k = Raise e -> e = AttributeError.
Proof.
  unfold get, get_default. destruct c; try (now intros [= <-]).
  now destruct (assoc k kv).
Qed.

Lemma first_item_raises {A} (l : list A) e : first_item l = Raise e -> e = IndexError.
Proof. destruct l; [now intros [= <-] | discriminate]. Qed.

Lemma extract_raises text e :
  _extract_company_and_title text = Raise e -> e = IndexError.
Proof.
  unfold _extract_company_and_title.
  destruct (negb (nonempty text)); [discriminate|].
  destruct (first_item (split (lit ". ") text)) as [sentence|e1] eqn:E1; cbn [bind].
  - destruct (first_item (splitlines sentence)) as [first|e2] eqn:E2; cbn [bind].
    + destruct (re_match dash_re first); [discriminate|].
      destruct (re_match paren_re first); [discriminate|].
      destruct (map strip _) as [|p0 [|p1 l]]; discriminate.
    + intros [= <-]. apply (first_item_raises _ _ E2).
  - intros [= <-]. apply (first_item_raises _ _ E1).
Qed.

Lemma int_base_raises base s e : int_base base s = Raise e -> e = ValueError.
Proof.
  unfold int_base. destruct (_ && _); [now intros [= <-] | discriminate].
Qed.

Lemma replace_charref_raises s e :
  _replace_charref s = Raise e -> e = ValueError.
Proof.
  unfold _replace_charref. destruct s as [|c s1].
  { destruct (lookup str_eqb [] html5); [discriminate|].
    destruct (longest_name [] _); discriminate. }
  assert (Hname : forall r : result str,
            r = match lookup str_eqb (c :: s1) html5 with
                | Some v => Ok v
                | None =>
                    match longest_name (c :: s1) (length (c :: s1) - 1) with
                    | Some v => Ok v
                    | None => Ok (38%N :: c :: s1)
                    end
                end -> r = Raise e -> e = ValueError).
  { intros r -> . destruct (lookup str_eqb (c :: s1) html5); [discriminate|].
    destruct (longest_name (c :: s1) _); discriminate. }
  assert (Hnum : forall m : result N,
            (forall e', m = Raise e' -> e' = ValueError) ->
            bind m (fun num => Ok (numeric_charref num)) = Raise e ->
            e = ValueError).
  { intros [num|e'] Hm; cbn [bind]; [discriminate|].
    intros [= <-]. now apply Hm. }
  destruct c as [|p]; [now apply Hname|].
  do 6 (destruct p as [p|p|]; try (now apply Hname)).
  apply Hnum. destruct s1 as [|c' s2]; [discriminate|].
  destruct (one_of [120; 88]%N c'); intros e'; apply int_base_raises.
Qed.

Lemma sub_go_try_raises r repl s e :
  (forall m t e', repl m t = Raise e' -> e' = ValueError) ->
  forall skip prev,
    sub_go_try r repl skip prev s = Raise e -> e = ValueError.
Proof.
  intros Hrepl. induction s as [|x s IH]; intros skip prev; [discriminate|].
  cbn [sub_go_try]. destruct skip as [|k]; [|apply IH].
  assert (Hkeep : bind (sub_go_try r repl 0 (Some x) s)
                    (fun rest => Ok (x :: rest)) = Raise e -> e = ValueError).
  { destruct (sub_go_try r repl 0 (Some x) s) as [rest|e'] eqn:E; cbn [bind];
      [discriminate|]. intros [= <-]. apply (IH _ _ E). }
  destruct (match_alt r prev (x :: s) 0) as [[[|n] ms]|]; try exact Hkeep.
  destruct (repl (S n, ms) (x :: s)) as [out|e'] eqn:Er; cbn [bind];
    [|intros [= <-]; apply (Hrepl _ _ _ Er)].
  destruct (sub_go_try r repl n (Some x) s) as [rest|e'] eqn:E; cbn [bind];
    [discriminate|]. intros [= <-]. apply (IH _ _ E).
Qed.

Lemma unescape_raises s e : unescape s = Raise e -> e = ValueError.
Proof.
  unfold unescape. destruct (negb _); [discriminate|].
  apply sub_go_try_raises. intros m t e'. apply replace_charref_raises.
Qed.

Lemma strip_html_raises s e : _strip_html s = Raise e -> e = ValueError.
Proof.
  unfold _strip_html.
  destruct (unescape (re_sub tag_re (lit " ") s)) as [t|e'] eqn:E; cbn [bind];
    [discriminate|]. intros [= <-]. apply (unescape_raises _ _ E).
Qed.

Lemma comment_job_raises terms location c e :
  comment_job terms location c = Raise e -> loop_exn e.
Proof.
  unfold comment_job, loop_exn.
  destruct (negb (truthy c)); [discriminate|].
  destruct (get c (lit "type")) as [ty|e1] eqn:E1; cbn [bind];
    [|intros [= <-]; left; apply (get_raises _ _ _ E1)].
  destruct (differs ty (lit "comment")); [discriminate|].
  destruct (get c (lit "id")) as [c_id|e2] eqn:E2; cbn [bind];
    [|intros [= <-]; left; apply (get_raises _ _ _ E2)].
  destruct (get c (lit "text")) as [t|e3] eqn:E3; cbn [bind];
    [|intros [= <-]; left; apply (get_raises _ _ _ E3)].
  destruct (py_or t (JStr [])) as [| | |raw| |];
    try (intros [= <-]; right; left; reflexivity).
  destruct (_strip_html raw) as [text|e0] eqn:E0; cbn [bind];
    [|intros [= <-]; right; right; right; apply (strip_html_raises _ _ E0)].
  destruct (negb (nonempty text)); [discriminate|].
  destruct (negb (_matches_terms text terms)); [discriminate|].
  destruct (negb (_matches_location text location)); [discriminate|].
  destruct (_extract_company_and_title text) as [ct|e4] eqn:E4; cbn [bind];
    [|intros [= <-]; right; right; left; apply (extract_raises _ _ E4)].
  destruct (get c (lit "author")) as [a|e5] eqn:E5; cbn [bind];
    [discriminate | intros [= <-]; left; apply (get_raises _ _ _ E5)].
Qed.

Lemma collect_raises terms location limit cs : forall acc e,
  collect terms location limit cs acc = Raise e -> loop_exn e.
Proof.
  induction cs as [|c cs IH]; intros acc e H; [discriminate|].
  cbn [collect] in H.
  destruct (comment_job terms location c) as [[j|]|e'] eqn:E; cbn [bind] in H.
  - destruct (limit <=? _)%Z; [discriminate | eauto].
  - eauto.
  - injection H as <-. apply (comment_job_raises _ _ _ _ E).
Qed.

End Exceptions.

(** X3: [yc_search] absorbs every failure of the retrieval.  When it
    raises, the thread has been fetched, and the exception comes from
    the loop over the comments: an [AttributeError], a [TypeError], an
    [IndexError], or the [ValueError] of a decimal reference too long to
    convert; never a failure of a request. *)
Theorem yc_search_raises_only_in_loop `{RT : Runtime} (net : network)
    (terms : list str) (location : option str) (limit : Z) (verbose : bool)
    (n n' : nat) (e : exn) :
  yc_search net terms location limit verbose n = (Raise e, n') ->
  (exists comments, retrieve net n = (Ok (Some comments), n'))
  /\ (e = AttributeError \/ e = TypeError \/ e = IndexError
      \/ e = ValueError).
Proof.
  intros H.
  destruct (yc_search_cases net terms location limit verbose n)
    as [[m E] | (comments & m & R & E)]; rewrite E in H; [discriminate|].
  injection H as H <-. split; [now exists comments|].
  destruct comments; cbn [iterate bind] in H;
    try (injection H as <-; right; left; reflexivity);
    apply (collect_raises _ _ _ _ _ _ H).
Qed.

Section RaiseExample.
Local Existing Instance ascii_runtime.

Lemma yc_search_raises_only_in_loop_witness :
  (exists comments,
     retrieve (one_thread_net [comment 1 ". We are hiring" "ann"]) 0
     = (Ok (Some comments), 2))
  /\ (IndexError = AttributeError \/ IndexError = TypeError
      \/ IndexError = IndexError \/ IndexError = ValueError).
Proof.
  apply (yc_search_raises_only_in_loop
           (one_thread_net [comment 1 ". We are hiring" "ann"])
           [] None 25 false 0 2 IndexError).
  vm_compute. reflexivity.
Defined.

End RaiseExample.

(** ** The shape of the result *)

Section Shape.
Context {RT : Runtime}.
Variables (terms : list str) (location : option str).

Lemma jobs_of_skip c cs :
  comment_job terms location c = Ok None ->
  jobs_of terms location (c :: cs) = jobs_of terms location cs.
Proof. intros H. unfold jobs_of. cbn [flat_map]. now rewrite H. Qed.

Lemma jobs_of_emit c cs j :
  comment_job terms location c = Ok (Some j) ->
  jobs_of terms location (c :: cs) = j :: jobs_of terms location cs.
Proof. intros H. unfold jobs_of. cbn [flat_map]. now rewrite H. Qed.

(** The loop returns what it had and as many of the postings to come as
    the limit leaves room for, one at the least. *)
Lemma collect_first limit cs : forall acc rs,
  length acc < Z.to_nat (Z.max 1 limit) ->
  collect terms location limit cs acc = Ok rs ->
  rs = acc ++ firstn (Z.to_nat (Z.max 1 limit) - length acc)
                     (jobs_of terms location cs).
Proof.
  induction cs as [|c cs IH]; intros acc rs Hacc H.
  - injection H as <-. cbn. now rewrite firstn_nil, app_nil_r.
  - apply collect_cases in H.
    destruct H as [[E H] | [(j & E & L & ->) | (j & E & L & H)]].
    + rewrite (jobs_of_skip c cs E). now apply IH.
    + rewrite (jobs_of_emit c cs j E). apply Z.leb_le in L.
      rewrite length_app in L. cbn [length] in L.
      replace (Z.to_nat (Z.max 1 limit) - length acc) with 1 by lia.
      reflexivity.
    + rewrite (jobs_of_emit c cs j E). apply Z.leb_gt in L.
      rewrite length_app in L. cbn [length] in L.
      rewrite (IH (acc ++ [j]) rs); [|rewrite length_app; cbn [length]; lia | exact H].
      rewrite length_app. cbn [length].
      replace (Z.to_nat (Z.max 1 limit) - length acc)
        with (S (Z.to_nat (Z.max 1 limit) - (length acc + 1))) by lia.
      cbn [firstn]. now rewrite <- app_assoc.
Qed.

(** A run that returns under a limit returns under every lower limit. *)
Lemma collect_lower limit limit' cs : forall acc rs',
  (limit <= limit')%Z ->
  length acc < Z.to_nat (Z.max 1 limit) ->
  collect terms location limit' cs acc = Ok rs' ->
  collect terms location limit cs acc
  = Ok (firstn (Z.to_nat (Z.max 1 limit)) rs').
Proof.
  induction cs as [|c cs IH]; intros acc rs' Hl Hacc H.
  - injection H as <-. cbn [collect]. f_equal. symmetry. apply firstn_all2. lia.
  - apply collect_cases in H.
    destruct H as [[E H] | [(j & E & L & ->) | (j & E & L & H)]].
    + rewrite (collect_skip terms location limit c cs acc E). now apply IH.
    + rewrite (collect_emit terms location limit c cs acc j E).
      apply Z.leb_le in L.
      replace (limit <=? Z.of_nat (length (acc ++ [j])))%Z with true
        by (symmetry; apply Z.leb_le; lia).
      f_equal. symmetry. apply firstn_all2.
      rewrite length_app in *. cbn [length] in *. lia.
    + rewrite (collect_emit terms location limit c cs acc j E).
      apply Z.leb_gt in L. destruct (limit <=? _)%Z eqn:L2.
      * apply Z.leb_le in L2. rewrite length_app in L, L2. cbn [length] in L, L2.
        rewrite (collect_first limit' cs (acc ++ [j]) rs');
          [|rewrite length_app; cbn [length]; lia | exact H].
        replace (Z.to_nat (Z.max 1 limit)) with (length (acc ++ [j]) + 0)
          by (rewrite length_app; cbn [length]; lia).
        rewrite firstn_app_2. cbn [firstn]. now rewrite app_nil_r.
      * apply Z.leb_gt in L2. rewrite length_app in L2. cbn [length] in L2.
        apply IH; [easy | rewrite length_app; cbn [length]; lia | exact H].
Qed.

End Shape.

(** X4: the search returns the postings in the order of the comments
    and stops at the limit: its result is the first [max 1 limit] of
    the postings that the comments yield. *)
Theorem yc_search_first_postings `{RT : Runtime} (terms : list str)
    (location : option str) (limit : Z) (comments : list json)
    (rs : list job) :
  yc_search_comments terms location limit comments = Ok rs ->
  rs = firstn (Z.to_nat (Z.max 1 limit)) (jobs_of terms location comments).
Proof.
  intros H.
  rewrite (collect_first terms location limit comments [] rs); [|cbn; lia | exact H].
  cbn [app length]. now rewrite Nat.sub_0_r.
Qed.

(** X5: lowering the limit cuts the result and does nothing else: when
    the search returns under a limit, it returns under every lower
    limit, and what it returns is the beginning of the same list. *)
Theorem yc_search_lower_limit `{RT : Runtime} (terms : list str)
    (location : option str) (limit limit' : Z) (comments : list json)
    (rs' : list job) :
  (limit <= limit')%Z ->
  yc_search_comments terms location limit' comments = Ok rs' ->
  yc_search_comments terms location limit comments
  = Ok (firstn (Z.to_nat (Z.max 1 limit)) rs').
Proof.
  intros Hl H. apply (collect_lower terms location limit limit' comments [] rs' Hl);
    [cbn; lia | exact H].
Qed.

Section ShapeExamples.
Local Existing Instance ascii_runtime.

Lemma yc_search_first_postings_witness :
  exists rs,
    yc_search_comments [] None 2
      [ comment 1 "Acme - Engineer" "ann"; JNull;
        comment 2 "Globex (Remote) Backend roles open" "bob";
        comment 3 "Initech, QA | Austin" "cyd" ] = Ok rs
    /\ rs = firstn (Z.to_nat (Z.max 1 2))
              (jobs_of [] None
                 [ comment 1 "Acme - Engineer" "ann"; JNull;
                   comment 2 "Globex (Remote) Backend roles open" "bob";
                   comment 3 "Initech, QA | Austin" "cyd" ]).
Proof.
  eexists. split.
  - vm_compute. reflexivity.
  - apply (yc_search_first_postings [] None 2). vm_compute. reflexivity.
Defined.

Lemma yc_search_lower_limit_witness :
  exists rs',
    yc_search_comments [] None 3
      [ comment 1 "Acme - Engineer" "ann";
        comment 2 "Globex (Remote) Backend roles open" "bob";
        comment 3 "Initech, QA | Austin" "cyd" ] = Ok rs'
    /\ yc_search_comments [] None 2
         [ comment 1 "Acme - Engineer" "ann";
           comment 2 "Globex (Remote) Backend roles open" "bob";
           comment 3 "Initech, QA | Austin" "cyd" ]
       = Ok (firstn (Z.to_nat (Z.max 1 2)) rs').
Proof.
  eexists. split.
  - vm_compute. reflexivity.
  - apply (yc_search_lower_limit [] None 2 3); [lia | vm_compute; reflexivity].
Defined.

End ShapeExamples.

(** ** The postings *)

Section Postings.
Context {RT : Runtime}.



End Postings.


(** X7: the term filter is sound: every posting returned is built from
    a comment whose normalized text, of which the description is the
    first 800 characters, contains every term without regard to case. *)
Theorem postings_match_terms `{RT : Runtime} (terms : list str)
    (location : option str) (limit : Z) (comments : list json)
    (rs : list job) :
  yc_search_comments terms location limit comments = Ok rs ->
  Forall (fun j =>
    exists c raw text,
      In c comments
      /\ get c (lit "text") = Ok (JStr raw)
      /\ _strip_html raw = Ok text
      /\ job_description j = firstn 800 text
      /\ forall term, In term terms ->
           contains_nocase term text = true) rs.
Proof.
  intros H.
  apply (collect_Forall terms location limit _ comments [] rs); auto.
  intros c j Hin Hj.
  destruct (comment_job_inv _ _ _ _ Hj) as (c_id & raw & text & ct & a & Hinv).
  destruct Hinv as (_ & _ & _ & Ht & _ & Hs & _ & Hm & _ & _ & ->).
  exists c, raw, text. repeat split; auto.
  intros term Hterm. unfold _matches_terms in Hm.
  destruct terms as [|t0 ts]; [easy|].
  rewrite forallb_forall in Hm. apply (Hm term Hterm).
Qed.

Section PostingExamples.
Local Existing Instance ascii_runtime.


Lemma postings_match_terms_witness :
  exists rs,
    yc_search_comments [lit "RUST"; lit "remote"] None 50
      [ comment 1 "Acme - Rust engineer" "ann";
        comment 2 "Globex (Remote) Rust roles open" "bob" ] = Ok rs
    /\ Forall (fun j =>
         exists c raw text,
           In c [ comment 1 "Acme - Rust engineer" "ann";
                  comment 2 "Globex (Remote) Rust roles open" "bob" ]
           /\ get c (lit "text") = Ok (JStr raw)
           /\ _strip_html raw = Ok text
           /\ job_description j = firstn 800 text
           /\ forall term, In term [lit "RUST"; lit "remote"] ->
                contains_nocase term text = true) rs.
Proof.
  eexists. split.
  - vm_compute. reflexivity.
  - apply (postings_match_terms [lit "RUST"; lit "remote"] None 50).
    vm_compute. reflexivity.
Defined.

End PostingExamples.

(** ** Company and title *)

Section Extraction.
Context {RT : Runtime}.

Lemma cons_hd_nonempty x l : cons_hd x l <> [].
Proof. now destruct l. Qed.

Lemma splitlines_nonempty s : s <> [] -> splitlines s <> [].
Proof.
  induction s as [|x s IH]; [easy|]. intros _. cbn [splitlines].
  destruct ((x =? 13)%N && _) eqn:E.
  - apply IH. destruct s; [|easy]. now rewrite andb_false_r in E.
  - destruct (is_linebreak x); [easy | apply cons_hd_nonempty].
Qed.

(** The first piece of a split is empty exactly when the text starts
    with the separator. *)
Lemma split_first sep x s :
  exists piece rest,
    split sep (x :: s) = piece :: rest
    /\ (starts_with sep (x :: s) = true -> piece = [])
    /\ (starts_with sep (x :: s) = false -> piece <> []).
Proof.
  unfold split. cbn [split_go]. destruct (starts_with sep (x :: s)).
  - eexists _, _. split; [reflexivity|]. split; easy.
  - destruct (split_go sep 0 s) as [|h t]; cbn [cons_hd];
      eexists _, _; (split; [reflexivity|]); split; easy.
Qed.

(** Every return of the function cuts the company at 80 characters and
    the title at 120. *)
Lemma extract_from_first first :
  exists company title,
    match re_match dash_re first with
    | Some m =>
        Ok (firstn 80 (strip (group 1 m first)),
            firstn 120 (strip (group 2 m first)))
    | None =>
        match re_match paren_re first with
        | Some m2 =>
            Ok (firstn 80 (strip (group 1 m2 first)),
                firstn 120 (if nonempty (strip (group 3 m2 first))
                            then strip (group 3 m2 first) else first))
        | None =>
            match map strip
                    (filter (fun p => nonempty (strip p))
                       (re_split comma_re first)) with
            | p0 :: p1 :: _ => Ok (firstn 80 p0, firstn 120 p1)
            | _ => Ok ([], firstn 120 first)
            end
        end
    end = Ok (company, title)
    /\ length company <= 80 /\ length title <= 120.
Proof.
  destruct (re_match dash_re first) as [m|].
  { eexists _, _. split; [reflexivity|]. split; apply firstn_le_length. }
  destruct (re_match paren_re first) as [m2|].
  { eexists _, _. split; [reflexivity|]. split; apply firstn_le_length. }
  destruct (map strip _) as [|p0 [|p1 l]]; eexists _, _;
    (split; [reflexivity|]); split;
    try apply firstn_le_length; cbn; lia.
Qed.

Lemma extract_cases text :
  (starts_with (lit ". ") text = true
   /\ _extract_company_and_title text = Raise IndexError)
  \/ (starts_with (lit ". ") text = false
      /\ exists company title,
           _extract_company_and_title text = Ok (company, title)
           /\ length company <= 80 /\ length title <= 120).
Proof.
  unfold _extract_company_and_title.
  destruct text as [|x s].
  { right. split; [reflexivity|]. exists [], []. cbn. repeat split; lia. }
  cbn [nonempty negb].
  destruct (split_first (lit ". ") x s) as (piece & rest & -> & Hy & Hn).
  cbn [first_item bind].
  destruct (starts_with (lit ". ") (x :: s)).
  - left. split; [reflexivity|]. now rewrite (Hy eq_refl).
  - right. split; [reflexivity|].
    pose proof (splitlines_nonempty piece (Hn eq_refl)) as Hl.
    destruct (splitlines piece) as [|first lines]; [easy|].
    cbn [first_item bind]. apply extract_from_first.
Qed.

End Extraction.

(** X8: the extraction of company and title raises on exactly one kind
    of text, the text that starts with a full stop and a space (its
    first sentence is empty and has no first line); on every other
    text, the empty one included, it returns a pair. *)
Theorem extract_raises_iff `{RT : Runtime} (text : str) :
  (starts_with (lit ". ") text = true ->
   _extract_company_and_title text = Raise IndexError)
  /\ (starts_with (lit ". ") text = false ->
      exists company title,
        _extract_company_and_title text = Ok (company, title)).
Proof.
  destruct (extract_cases text) as [[E H] | [E (c & t & H & _)]];
    rewrite E; split; try easy; intros _; eauto.
Qed.

(** X9: whatever the text, a company that the extraction returns has at
    most 80 characters and a title at most 120. *)
Theorem extract_bounds `{RT : Runtime} (text company title : str) :
  _extract_company_and_title text = Ok (company, title) ->
  length company <= 80 /\ length title <= 120.
Proof.
  intros H.
  destruct (extract_cases text) as [[_ E] | [_ (c & t & E & Hb)]];
    rewrite E in H; [discriminate|].
  now injection H as <- <-.
Qed.

Section ExtractionExamples.
Local Existing Instance ascii_runtime.

Lemma extract_raises_iff_witness :
  (starts_with (lit ". ") (lit ". NET shop") = true ->
   _extract_company_and_title (lit ". NET shop") = Raise IndexError)
  /\ (starts_with (lit ". ") (lit ". NET shop") = false ->
      exists company title,
        _extract_company_and_title (lit ". NET shop") = Ok (company, title)).
Proof. apply (extract_raises_iff (lit ". NET shop")). Defined.

Lemma extract_bounds_witness :
  exists company title,
    _extract_company_and_title (lit "Acme: " ++ repeat 120%N 200)
    = Ok (company, title)
    /\ length company <= 80 /\ length title <= 120.
Proof.
  eexists _, _. split.
  - vm_compute. reflexivity.
  - apply (extract_bounds (lit "Acme: " ++ repeat 120%N 200)).
    vm_compute. reflexivity.
Defined.

End ExtractionExamples.

(** ** Location and terms *)

Section Filters.
Context {RT : Runtime}.

Lemma scan_cities_range cs t :
  scan_cities cs t = [] \/ In (scan_cities cs t) (map snd cs).
Proof.
  induction cs as [|[k p] cs IH]; [now left|]. cbn [scan_cities map snd].
  destruct (re_search (word_re k) t).
  - right. now left.
  - destruct IH as [IH | IH]; [now left | right; now right].
Qed.

Lemma matches_terms_forall text terms :
  _matches_terms text terms
  = forallb (fun term => contains (lower term) (lower text)) terms.
Proof. now destruct terms. Qed.

End Filters.

(** X10: location extraction answers nothing but "Remote", one of the
    eight city names, or the empty string. *)
Theorem extract_location_range `{RT : Runtime} (text : str) :
  In (_extract_location text) location_labels.
Proof.
  unfold _extract_location.
  destruct (contains (lit "remote") (lower text)); [now left|].
  destruct (scan_cities_range cities (lower text)) as [-> | H].
  - cbn. tauto.
  - cbn in H. cbn. tauto.
Qed.

(** X11: the term filter is a conjunction: a text matches two lists of
    terms put together exactly when it matches each of them, so that
    more terms never let more texts through. *)
Theorem matches_terms_app `{RT : Runtime} (text : str) (ts us : list str) :
  _matches_terms text (ts ++ us)
  = _matches_terms text ts && _matches_terms text us.
Proof. rewrite !matches_terms_forall. apply forallb_app. Qed.

(** X12: the location filter has one rule: for a location that is not
    empty, it holds exactly when the text contains the location,
    stripped of the blanks at its ends, without regard to case; the
    branch for "remote" decides nothing else. *)
Theorem matches_location_contains `{RT : Runtime} (text l : str) :
  l <> [] ->
  _matches_location text (Some l) = contains_nocase (strip l) text.
Proof.
  intros Hl. destruct l as [|x l]; [easy|].
  cbn [_matches_location]. unfold contains_nocase.
  destruct (str_eqb (lower (strip (x :: l))) (lit "remote")) eqn:E; [|reflexivity].
  apply str_eqb_eq in E. now rewrite E.
Qed.

Section FilterExamples.
Local Existing Instance ascii_runtime.

Lemma matches_location_contains_witness :
  _matches_location (lit "Fully REMOTE team") (Some (lit " Remote "))
  = contains_nocase (strip (lit " Remote ")) (lit "Fully REMOTE team").
Proof.
  apply (matches_location_contains (lit "Fully REMOTE team") (lit " Remote ")).
  discriminate.
Defined.

End FilterExamples.

(** ** The normal form of a text *)

Section NormalForm.

Lemma single_spaced_blanks s :
  single_spaced s = true -> Forall (fun c => is_space c = true -> c = 32%N) s.
Proof.
  induction s as [|x s IH]; intros H; [constructor|].
  cbn [single_spaced] in H. apply andb_true_iff in H. destruct H as [Hx Hs].
  constructor; [|now apply IH].
  intros E. rewrite E in Hx. apply andb_true_iff in Hx.
  now apply N.eqb_eq.
Qed.

Lemma single_spaced_no_pair s pre post :
  single_spaced s = true -> s <> pre ++ [32; 32]%N ++ post.
Proof.
  intros H E. rewrite E in H. apply single_spaced_suffix in H.
  cbn in H. discriminate.
Qed.

Lemma rev_strip_clean s : starts_clean (rev (strip s)) = true.
Proof.
  unfold strip, rstrip. rewrite rev_involutive. apply lstrip_clean.
Qed.

End NormalForm.

(** X13: a normalized text is in normal form: whenever the normalizer
    returns, the only whitespace characters of its result are plain
    spaces, no two spaces stand side by side, and the result neither
    starts nor ends with a space. *)
Theorem strip_html_normal_form `{RT : Runtime} (x y : str) :
  _strip_html x = Ok y ->
  Forall (fun c => is_space c = true -> c = 32%N) y
  /\ (forall pre post, y <> pre ++ [32; 32]%N ++ post)
  /\ starts_clean y = true
  /\ starts_clean (rev y) = true.
Proof.
  intros Hx. destruct (strip_html_tidied x y Hx) as [z ->].
  assert (H : single_spaced (strip (re_sub spaces_re (lit " ") z)) = true).
  { rewrite re_sub_spaces.
    apply single_spaced_strip, collapse_single_spaced. }
  split; [now apply single_spaced_blanks|].
  split; [intros pre post; now apply single_spaced_no_pair|].
  split.
  - unfold strip. apply rstrip_clean, lstrip_clean.
  - apply rev_strip_clean.
Qed.

Section NormalFormExample.
Local Existing Instance ascii_runtime.

Lemma strip_html_normal_form_witness :
  _strip_html (lit "  <p>Globex   (Remote)</p>&#32;&#9; R&amp;D  ")
  = Ok (lit "Globex (Remote) R&D")
  /\ Forall (fun c => is_space c = true -> c = 32%N)
       (lit "Globex (Remote) R&D")
  /\ (forall pre post,
        lit "Globex (Remote) R&D" <> pre ++ [32; 32]%N ++ post)
  /\ starts_clean (lit "Globex (Remote) R&D") = true
  /\ starts_clean (rev (lit "Globex (Remote) R&D")) = true.
Proof.
  assert (H : _strip_html (lit "  <p>Globex   (Remote)</p>&#32;&#9; R&amp;D  ")
              = Ok (lit "Globex (Remote) R&D")) by (vm_compute; reflexivity).
  split; [exact H|].
  apply (strip_html_normal_form _ _ H).
Defined.

End NormalFormExample.

(** ** The choice of the thread *)

Section Locator.
Context {RT : Runtime}.

Lemma scan_hits_pass h hits :
  hit_passed_over h = true -> scan_hits (h :: hits) = scan_hits hits.
Proof.
  unfold hit_passed_over, hit_matches, hit_title. cbn [scan_hits].
  destruct (get h (lit "title")) as [t|e]; [|discriminate]. cbn [bind].
  destruct (py_or t (JStr [])) as [| | |title| |]; try discriminate.
  destruct (re_search pat title); cbn [negb orb]; [|reflexivity].
  now destruct (object_id h).
Qed.

Lemma scan_hits_found h hits z :
  hit_matches h = true -> object_id h = Ok z ->
  scan_hits (h :: hits) = Ok (Some z).
Proof.
  unfold hit_matches, hit_title. cbn [scan_hits]. intros H Hz.
  destruct (get h (lit "title")) as [t|e]; [|discriminate]. cbn [bind].
  destruct (py_or t (JStr [])) as [| | |title| |]; try discriminate.
  destruct (re_search pat title); [|discriminate]. now rewrite Hz.
Qed.

Lemma scan_hits_all_passed hits :
  forallb hit_passed_over hits = true -> scan_hits hits = Ok None.
Proof.
  induction hits as [|h hits IH]; [reflexivity|]. cbn [forallb].
  intros H. apply andb_true_iff in H. destruct H as [Hh Hs].
  rewrite (scan_hits_pass h hits Hh). now apply IH.
Qed.

Lemma scan_hits_first pre h post z :
  forallb hit_passed_over pre = true ->
  hit_matches h = true -> object_id h = Ok z ->
  scan_hits (pre ++ h :: post) = Ok (Some z).
Proof.
  induction pre as [|x pre IH]; intros Hp Hm Hz; cbn [app].
  - now apply scan_hits_found.
  - cbn [forallb] in Hp. apply andb_true_iff in Hp. destruct Hp as [Hx Hp].
    rewrite (scan_hits_pass x _ Hx). now apply IH.
Qed.

End Locator.

(** X14: among the hits of the search, the locator returns the
    identifier of the first one whose title matches "ask hn: who is
    hiring?" and whose identifier converts to an integer; hits before it
    whose title does not match, or matches with an identifier that does
    not convert, are passed over. *)
Theorem locator_first_match `{RT : Runtime} (net : network) (n n1 : nat)
    (pre : list json) (h : json) (post : list json) (z : Z) :
  try_io (dated_hits net) (fallback_hits net) n
  = (Ok (JArr (pre ++ h :: post)), n1) ->
  forallb hit_passed_over pre = true ->
  hit_matches h = true ->
  object_id h = Ok z ->
  _latest_who_is_hiring_story_id net n = (Ok (Some z), n1).
Proof.
  intros H Hp Hm Hz. rewrite locator_unfold, H. cbn [iterate].
  now rewrite (scan_hits_first pre h post z Hp Hm Hz).
Qed.

(** X15: when no hit qualifies in that way, the locator falls back on
    the first hit, whatever its title: it returns the identifier of the
    first hit if that converts to an integer, and nothing otherwise. *)
Theorem locator_last_resort `{RT : Runtime} (net : network) (n n1 : nat)
    (h0 : json) (rest : list json) :
  try_io (dated_hits net) (fallback_hits net) n
  = (Ok (JArr (h0 :: rest)), n1) ->
  forallb hit_passed_over (h0 :: rest) = true ->
  _latest_who_is_hiring_story_id net n
  = (match object_id h0 with
     | Ok z => Ok (Some z)
     | Raise _ => Ok None
     end, n1).
Proof.
  intros H Hp. rewrite locator_unfold, H. cbn [iterate].
  rewrite (scan_hits_all_passed _ Hp). cbn [truthy item0 first_item bind try_except].
  now destruct (object_id h0).
Qed.

Section LocatorExamples.
Local Existing Instance ascii_runtime.

Lemma locator_first_match_witness :
  _latest_who_is_hiring_story_id
    (answering_net
       (JObj [(lit "hits",
               JArr ([ hit "Ask HN: Who wants to be hired?" "41";
                       hit "ASK HN:  WHO IS HIRING? (old)" "n/a" ]
                     ++ hit "Ask HN: Who is hiring? (May 2025)" "43"
                     :: [ hit "Ask HN: Who is hiring? (April 2025)" "40" ]))])
       JNull) 0
  = (Ok (Some 43%Z), 1).
Proof.
  apply (locator_first_match _ 0 1
           [ hit "Ask HN: Who wants to be hired?" "41";
             hit "ASK HN:  WHO IS HIRING? (old)" "n/a" ]
           (hit "Ask HN: Who is hiring? (May 2025)" "43")
           [ hit "Ask HN: Who is hiring? (April 2025)" "40" ] 43%Z).
  - vm_compute. reflexivity.
  - vm_compute. reflexivity.
  - vm_compute. reflexivity.
  - vm_compute. reflexivity.
Defined.

Lemma locator_last_resort_witness :
  _latest_who_is_hiring_story_id
    (answering_net
       (JObj [(lit "hits",
               JArr [ hit "Ask HN: Who wants to be hired?" "41";
                      hit "Ask HN: Freelancer? Seeking freelancer?" "42" ])])
       JNull) 0
  = (match object_id (hit "Ask HN: Who wants to be hired?" "41") with
     | Ok z => Ok (Some z)
     | Raise _ => Ok None
     end, 1).
Proof.
  apply (locator_last_resort _ 0 1 (hit "Ask HN: Who wants to be hired?" "41")
           [ hit "Ask HN: Freelancer? Seeking freelancer?" "42" ]).
  - vm_compute. reflexivity.
  - vm_compute. reflexivity.
Defined.

End LocatorExamples.

(** ** A thread without replies *)

(** X16: a thread whose item has no children, or has null or an empty
    list for them, is a thread without comments: the fetch returns the
    empty list and the search returns no posting. *)
Theorem thread_without_children `{RT : Runtime} (net : network)
    (terms : list str) (location : option str) (limit : Z) (verbose : bool)
    (n n1 n2 : nat) (story_id : Z) (d v : json) :
  _latest_who_is_hiring_story_id net n = (Ok (Some story_id), n1) ->
  _http_get_json net (ALGOLIA_ITEM_URL (JInt story_id)) None 2 n1 = (Ok d, n2) ->
  get d (lit "children") = Ok v ->
  truthy v = false ->
  _fetch_thread_comments net story_id n1 = (Ok (JArr []), n2)
  /\ yc_search net terms location limit verbose n = (Ok [], n2).
Proof.
  intros Hl Hd Hv Ht.
  assert (F : _fetch_thread_comments net story_id n1 = (Ok (JArr []), n2)).
  { unfold _fetch_thread_comments, bind_io, lift, ret. rewrite Hd.
    destruct d; try discriminate. unfold get, get_default in *.
    destruct (assoc (lit "children") kv) as [w|].
    - injection Hv as ->. unfold py_or. now rewrite Ht.
    - reflexivity. }
  split; [exact F|].
  unfold yc_search, bind_io, try_io, retrieve, bind_io, ret, lift.
  rewrite Hl, F. reflexivity.
Qed.

Section EmptyThreadExample.
Local Existing Instance ascii_runtime.

Lemma thread_without_children_witness :
  _fetch_thread_comments
    (answering_net
       (JObj [(lit "hits", JArr [hit "Ask HN: Who is hiring? (May 2025)" "43"])])
       (JObj [(lit "id", JInt 43); (lit "children", JNull)])) 43 1
  = (Ok (JArr []), 2)
  /\ yc_search
       (answering_net
          (JObj [(lit "hits", JArr [hit "Ask HN: Who is hiring? (May 2025)" "43"])])
          (JObj [(lit "id", JInt 43); (lit "children", JNull)]))
       [lit "python"] None 25 false 0
     = (Ok [], 2).
Proof.
  apply (thread_without_children _ [lit "python"] None 25 false 0 1 2 43
           (JObj [(lit "id", JInt 43); (lit "children", JNull)]) JNull).
  - vm_compute. reflexivity.
  - vm_compute. reflexivity.
  - reflexivity.
  - reflexivity.
Defined.

End EmptyThreadExample.

(** ** The fallback search *)

(** X17: the fallback search is sent only after the dated search has
    failed: when the first answer to the dated search is a dictionary,
    the locator works on its hits and sends no other request. *)
Theorem locator_single_request `{RT : Runtime} (net : network) (n : nat)
    (kv : list (str * json)) :
  net n (request_of ALGOLIA_SEARCH_BY_DATE_URL (Some by_date_params))
  = Ok (JObj kv) ->
  try_io (dated_hits net) (fallback_hits net) n
  = (get_default (JObj kv) (lit "hits") (JArr []), n + 1)
  /\ snd (_latest_who_is_hiring_story_id net n) = n + 1.
Proof.
  intros H.
  assert (E : try_io (dated_hits net) (fallback_hits net) n
              = (get_default (JObj kv) (lit "hits") (JArr []), n + 1)).
  { unfold try_io, dated_hits, bind_io, lift, _http_get_json.
    cbn [http_attempts Nat.add]. unfold request_of in H. rewrite H.
    rewrite Nat.add_1_r. cbn [get_default].
    now destruct (assoc (lit "hits") kv). }
  split; [exact E|]. rewrite locator_unfold, E. cbn [get_default].
  destruct (assoc (lit "hits") kv) as [hits|].
  - destruct (iterate hits) as [items|e]; [|reflexivity].
    destruct (scan_hits items) as [[z|]|e]; try reflexivity.
    now destruct (truthy hits).
  - reflexivity.
Qed.

Section SingleRequestExample.
Local Existing Instance ascii_runtime.

Lemma locator_single_request_witness :
  try_io (dated_hits silent_net) (fallback_hits silent_net) 5
  = (get_default (JObj [(lit "hits", JArr [])]) (lit "hits") (JArr []), 5 + 1)
  /\ snd (_latest_who_is_hiring_story_id silent_net 5) = 5 + 1.
Proof.
  apply (locator_single_request silent_net 5 [(lit "hits", JArr [])]).
  reflexivity.
Defined.

End SingleRequestExample.

(** ** Nothing is lost below the limit *)

Section Complete.
Context {RT : Runtime}.
Variables (terms : list str) (location : option str) (limit : Z).

Lemma collect_incl cs : forall acc rs,
  collect terms location limit cs acc = Ok rs -> incl acc rs.
Proof.
  induction cs as [|c cs IH]; intros acc rs H.
  - injection H as <-. apply incl_refl.
  - apply collect_cases in H.
    destruct H as [[_ H] | [(j & _ & _ & ->) | (j & _ & _ & H)]].
    + now apply IH.
    + now apply incl_appl, incl_refl.
    + intros x Hx. apply (IH _ _ H). apply in_or_app. now left.
Qed.

Lemma collect_complete cs : forall acc rs,
  collect terms location limit cs acc = Ok rs ->
  (Z.of_nat (length rs) < limit)%Z ->
  forall c, In c cs -> passes terms location c = true ->
  exists j, In j rs /\ comment_job terms location c = Ok (Some j).
Proof.
  induction cs as [|c0 cs IH]; intros acc rs H Hlen c Hin Hp; [easy|].
  apply collect_cases in H.
  destruct H as [[E H] | [(j & E & L & ->) | (j & E & L & H)]].
  - destruct Hin as [<- | Hin]; [|now apply (IH acc rs)].
    destruct (passes_job terms location c0 Hp) as [[j' E'] | [e E']];
      rewrite E' in E; discriminate.
  - apply Z.leb_le in L. lia.
  - destruct Hin as [<- | Hin]; [|now apply (IH (acc ++ [j]) rs)].
    exists j. split; [|exact E].
    apply (collect_incl _ _ _ H). apply in_or_app. right. now left.
Qed.

End Complete.

(** X18: below the limit nothing is lost: when the search returns fewer
    postings than the limit, every comment of the list that passes the
    four filters has its posting in the result. *)
Theorem yc_search_complete `{RT : Runtime} (terms : list str)
    (location : option str) (limit : Z) (comments : list json)
    (rs : list job) :
  yc_search_comments terms location limit comments = Ok rs ->
  (Z.of_nat (length rs) < limit)%Z ->
  forall c, In c comments -> passes terms location c = true ->
  exists j, In j rs /\ comment_job terms location c = Ok (Some j).
Proof.
  intros H Hlen. apply (collect_complete terms location limit comments [] rs H Hlen).
Qed.

Section CompleteExample.
Local Existing Instance ascii_runtime.

Lemma yc_search_complete_witness :
  exists rs,
    yc_search_comments [lit "rust"] None 50
      [ comment 1 "Acme - Rust engineer" "ann";
        comment 2 "Globex - Go developer" "bob";
        comment 3 "Initech - Rust developer" "cyd" ] = Ok rs
    /\ exists j,
         In j rs
         /\ comment_job [lit "rust"] None
              (comment 3 "Initech - Rust developer" "cyd") = Ok (Some j).
Proof.
  eexists. split.
  - vm_compute. reflexivity.
  - apply (yc_search_complete [lit "rust"] None 50
             [ comment 1 "Acme - Rust engineer" "ann";
               comment 2 "Globex - Go developer" "bob";
               comment 3 "Initech - Rust developer" "cyd" ]).
    + vm_compute. reflexivity.
    + vm_compute. reflexivity.
    + right. right. left. reflexivity.
    + reflexivity.
Defined.

End CompleteExample.
